(** * endpoint_scrape: extraction, normalisation and aggregation of URL-like strings

    A shallow embedding of [endpoint_scrape.py].  A Python [str] is a list of
    code points; the three compiled patterns of [extract_urls] are written as
    regular-expression syntax trees and run by a backtracking matcher that
    follows the order in which Python's [re] explores alternatives, so that
    [findall] returns the same items in the same order. *)

From Stdlib Require Import NArith Lia String Ascii.
From stdpp Require Import base list gmap.

Local Open Scope N_scope.

(** ** Strings *)

(** A character is a code point, a Python [str] a list of them. *)
Abbreviation char := N (only parsing).
Abbreviation str := (list N) (only parsing).

(** An ASCII literal as a [str]. *)
Definition py (s : string) : str := map N_of_ascii (list_ascii_of_string s).

Definition ch_nl : char := 10.
Definition ch_space : char := 32.
Definition ch_bang : char := 33.
Definition ch_dquote : char := 34.
Definition ch_dollar : char := 36.
Definition ch_percent : char := 37.
Definition ch_amp : char := 38.
Definition ch_squote : char := 39.
Definition ch_lparen : char := 40.
Definition ch_rparen : char := 41.
Definition ch_star : char := 42.
Definition ch_plus : char := 43.
Definition ch_comma : char := 44.
Definition ch_minus : char := 45.
Definition ch_dot : char := 46.
Definition ch_slash : char := 47.
Definition ch_lt : char := 60.
Definition ch_eq : char := 61.
Definition ch_gt : char := 62.
Definition ch_at : char := 64.
Definition ch_lbracket : char := 91.
Definition ch_backslash : char := 92.
Definition ch_rbracket : char := 93.
Definition ch_caret : char := 94.
Definition ch_underscore : char := 95.
Definition ch_backtick : char := 96.
Definition ch_lbrace : char := 123.
Definition ch_pipe : char := 124.
Definition ch_rbrace : char := 125.
Definition ch_del : char := 127.

Definition in_range (lo hi c : char) : bool := (lo <=? c) && (c <=? hi).

(** [s.startswith(p)] *)
Fixpoint startswith (p s : str) : bool :=
  match p, s with
  | [], _ => true
  | _ :: _, [] => false
  | a :: p', b :: s' => (a =? b) && startswith p' s'
  end.

(** [c in chars], the membership test behind [lstrip], [rstrip] and the
    forbidden-character filter. *)
Definition char_in (c : char) (chars : str) : bool := existsb (N.eqb c) chars.

(** [s.lstrip(chars)]: drops leading characters that occur in [chars]. *)
Fixpoint lstrip (chars s : str) : str :=
  match s with
  | [] => []
  | c :: s' => if char_in c chars then lstrip chars s' else s
  end.

(** [s.rstrip(chars)]: drops trailing characters that occur in [chars]. *)
Fixpoint rstrip (chars s : str) : str :=
  match s with
  | [] => []
  | c :: s' =>
      match rstrip chars s' with
      | [] => if char_in c chars then [] else [c]
      | t => c :: t
      end
  end.

(** ** Character classes of the patterns *)

(** [\s] on a [str] pattern: the code points for which [str.isspace] holds. *)
Definition is_space (c : char) : bool :=
  in_range 9 13 c || in_range 28 32 c || (c =? 133) || (c =? 160)
  || (c =? 5760) || in_range 8192 8202 c || (c =? 8232) || (c =? 8233)
  || (c =? 8239) || (c =? 8287) || (c =? 12288).

(** [[a-zA-Z]] *)
Definition is_letter (c : char) : bool := in_range 97 122 c || in_range 65 90 c.
(** [[0-9]] *)
Definition is_digit (c : char) : bool := in_range 48 57 c.
(** [[$-_@.&+]]: the range from [$] to [_], and four single characters. *)
Definition is_punct1 (c : char) : bool :=
  in_range ch_dollar ch_underscore c || (c =? ch_at) || (c =? ch_dot)
  || (c =? ch_amp) || (c =? ch_plus).
(** The fourth class of the URL pattern, in a raw string: [!], [*], an
    escaped backslash, [(], an escaped backslash, [)] and [,]. *)
Definition is_punct2 (c : char) : bool :=
  (c =? ch_bang) || (c =? ch_star) || (c =? ch_backslash) || (c =? ch_lparen)
  || (c =? ch_backslash) || (c =? ch_rparen) || (c =? ch_comma).
(** [[0-9a-fA-F]] *)
Definition is_hex (c : char) : bool :=
  in_range 48 57 c || in_range 97 102 c || in_range 65 70 c.
(** The class of the double and the single quote. *)
Definition is_quote (c : char) : bool := (c =? ch_dquote) || (c =? ch_squote).
(** [.] without DOTALL: anything but a line feed. *)
Definition is_any (c : char) : bool := negb (c =? ch_nl).
(** [[-=]] *)
Definition is_dash_eq (c : char) : bool := (c =? ch_minus) || (c =? ch_eq).
(** The negated class of whitespace, both quotes, [<] and [>]. *)
Definition is_fs_char (c : char) : bool :=
  negb (is_space c || (c =? ch_dquote) || (c =? ch_squote) || (c =? ch_lt) || (c =? ch_gt)).
Definition is_char (a c : char) : bool := c =? a.

(** ** Regular expressions and the backtracking matcher *)

Inductive re : Type :=
| Eps : re
| Cls : (char -> bool) -> re      (* one character of a class *)
| Seq : re -> re -> re
| Alt : re -> re -> re            (* a|b, a tried first *)
| Star : re -> re                 (* a*, greedy *)
| Grp : re -> re                  (* the capturing group *)
| Bos : re                        (* ^ without MULTILINE *)
| Eos : re                        (* $ without MULTILINE *)
| Ahead : re -> re                (* (?=a) *)
| NotAhead : re -> re.            (* (?!a) *)

(** [a+] and [a?], both greedy. *)
Definition Plus (a : re) : re := Seq a (Star a).
Definition Opt (a : re) : re := Alt a Eps.

(** A continuation receives the position reached, the text that is left and
    the content of the group, and may refuse, which makes the matcher
    backtrack. *)
Definition cont (R : Type) : Type := nat -> str -> option str -> option R.

(** Greedy repetition: one more round of [body] is tried before leaving the
    loop; a round that consumes nothing is refused (no repeated part of the
    three patterns can match the empty string, see [stars_consume]).  [n]
    bounds the number of rounds by the length of the text that is left. *)
Fixpoint star_loop {R : Type}
    (body : nat -> str -> option str -> cont R -> option R) (k : cont R)
    (n : nat) (i : nat) (s : str) (g : option str) : option R :=
  match n with
  | O => k i s g
  | S n' =>
      match body i s g (fun i' s' g' =>
                          if (i <? i')%nat then star_loop body k n' i' s' g' else None) with
      | Some x => Some x
      | None => k i s g
      end
  end.

(** [run r i s g k]: match [r] at position [i], where [s] is the text from
    [i] on, then hand over to [k]; [None] when every way of matching [r] is
    refused by [k]. *)
Fixpoint run {R : Type} (r : re) (i : nat) (s : str) (g : option str)
    (k : cont R) : option R :=
  match r with
  | Eps => k i s g
  | Cls p =>
      match s with
      | c :: s' => if p c then k (S i) s' g else None
      | [] => None
      end
  | Seq a b => run a i s g (fun i' s' g' => run b i' s' g' k)
  | Alt a b =>
      match run a i s g k with
      | Some x => Some x
      | None => run b i s g k
      end
  | Star a => star_loop (fun i' s' g' k' => run a i' s' g' k') k (length s) i s g
  | Grp a => run a i s g (fun i' s' _ => k i' s' (Some (take (i' - i) s)))
  | Bos => if (i =? 0)%nat then k i s g else None
  | Eos =>
      match s with
      | [] => k i s g
      | [c] => if c =? ch_nl then k i s g else None
      | _ => None
      end
  | Ahead a =>
      match run a i s g (fun _ _ g' => Some g') with
      | Some g' => k i s g'
      | None => None
      end
  | NotAhead a =>
      match run a i s g (fun _ _ _ => Some tt) with
      | Some _ => None
      | None => k i s g
      end
  end.

(** Does the pattern have a capturing group?  [findall] returns the group's
    content when there is one and the whole match when there is none. *)
Fixpoint has_group (r : re) : bool :=
  match r with
  | Eps | Cls _ | Bos | Eos => false
  | Grp _ => true
  | Seq a b | Alt a b => has_group a || has_group b
  | Star a | Ahead a | NotAhead a => has_group a
  end.

(** Can the pattern match without consuming a character? *)
Fixpoint nullable (r : re) : bool :=
  match r with
  | Eps | Star _ | Bos | Eos | Ahead _ | NotAhead _ => true
  | Cls _ => false
  | Seq a b => nullable a && nullable b
  | Alt a b => nullable a || nullable b
  | Grp a => nullable a
  end.

(** Every repeated part consumes at least one character. *)
Fixpoint stars_consume (r : re) : bool :=
  match r with
  | Eps | Cls _ | Bos | Eos => true
  | Seq a b | Alt a b => stars_consume a && stars_consume b
  | Star a => negb (nullable a) && stars_consume a
  | Grp a | Ahead a | NotAhead a => stars_consume a
  end.

(** The end of a match attempt started at [p]: after an empty match the
    scanner must advance, so a match that ends where it started is refused. *)
Definition accept (p : nat) (adv : bool) : cont (nat * nat * option str) :=
  fun e _ g => if adv && (e =? p)%nat then None else Some (p, e, g).

(** [pattern.search] from position [p]: the first position at which the
    pattern matches; [adv] only constrains the attempt at [p] itself. *)
Fixpoint search (pat : re) (p : nat) (s : str) (adv : bool)
    : option (nat * nat * option str) :=
  match run pat p s None (accept p adv) with
  | Some x => Some x
  | None =>
      match s with
      | [] => None
      | _ :: s' => search pat (S p) s' false
      end
  end.

(** The item [findall] appends for a match from [b] to [e], the text from
    [p] on being [s]: the group (empty when it did not take part), or the
    matched slice. *)
Definition item (pat : re) (p : nat) (s : str) (b e : nat) (g : option str) : str :=
  if has_group pat then default [] g else take (e - b) (drop (b - p) s).

(** The loop of [pattern.findall], as CPython runs it since version 3.7:
    search, append, restart at the end of the match, and require progress
    after an empty match. *)
Fixpoint findall_from (fuel : nat) (pat : re) (p : nat) (s : str) (adv : bool)
    : list str :=
  match fuel with
  | O => []
  | S fuel' =>
      match search pat p s adv with
      | None => []
      | Some (b, e, g) =>
          item pat p s b e g
            :: findall_from fuel' pat e (drop (e - p) s) (e =? b)%nat
      end
  end.

(** Two searches per position are enough: one that may stay, one that must
    advance. *)
Definition findall (pat : re) (text : str) : list str :=
  findall_from (2 * length text + 2) pat 0 text false.

(** ** The three patterns of [extract_urls] *)

(** A literal, character by character. *)
Fixpoint lit (s : str) : re :=
  match s with
  | [] => Eps
  | c :: s' => Seq (Cls (is_char c)) (lit s')
  end.

(** One round of the repeated part of [url_pattern]: a letter, a digit, one
    of the two punctuation classes, or a percent sign and two hex digits. *)
Definition url_unit : re :=
  Alt (Cls is_letter)
    (Alt (Cls is_digit)
       (Alt (Cls is_punct1)
          (Alt (Cls is_punct2)
             (Seq (Cls (is_char ch_percent)) (Seq (Cls is_hex) (Cls is_hex)))))).

Definition url_pattern : re :=
  Seq (lit (py "http"))
    (Seq (Opt (Cls (is_char 115)))
       (Seq (lit (py "://")) (Plus url_unit))).

(** The left boundary, start of text or one whitespace or quote character,
    which is part of the match. *)
Definition left_boundary : re := Alt Bos (Alt (Cls is_space) (Cls is_quote)).

(** The three negative lookaheads after the boundary: no [//], no [**] and
    no [/*-] or [/*=] on the rest of the line. *)
Definition no_double_slash : re := NotAhead (Seq (Star (Cls is_any)) (lit (py "//"))).
Definition no_double_star : re := NotAhead (Seq (Star (Cls is_any)) (lit (py "**"))).
Definition no_comment_opener : re :=
  NotAhead (Seq (Star (Cls is_any)) (Seq (lit (py "/*")) (Cls is_dash_eq))).

(** The right boundary, looked at and not consumed, and the last negative
    lookahead: no comma on the rest of the line. *)
Definition right_boundary : re := Ahead (Alt (Cls is_space) (Alt Eos (Cls is_quote))).
Definition no_comma : re := NotAhead (Seq (Star (Cls is_any)) (lit (py ","))).

Definition forward_slash_pattern : re :=
  Seq left_boundary
    (Seq no_double_slash
       (Seq no_double_star
          (Seq no_comment_opener
             (Seq (Opt (Grp (Seq (lit (py "/")) (Star (Cls is_fs_char)))))
                (Seq right_boundary no_comma))))).

Section WordTable.

(** [\w] on a [str] pattern is [str.isalnum] or an underscore.  Beyond ASCII
    [str.isalnum] reads the Unicode database of the interpreter, which is
    taken as a parameter. *)
Variable uni_alnum : char -> bool.

Definition is_word (c : char) : bool :=
  if c <? 128 then is_letter c || is_digit c || (c =? ch_underscore)
  else uni_alnum c.

(** [[\w./]] *)
Definition is_path_char (c : char) : bool :=
  is_word c || (c =? ch_dot) || (c =? ch_slash).

Definition partial_url_pattern : re :=
  Seq left_boundary
    (Seq no_double_slash
       (Seq no_double_star
          (Seq no_comment_opener
             (Seq (Grp (Alt (Seq (lit (py "./")) (Star (Cls is_path_char)))
                          (Alt (Seq (lit (py "../")) (Star (Cls is_path_char)))
                             (Seq (lit (py "/")) (Star (Cls is_path_char))))))
                (Seq right_boundary no_comma))))).

End WordTable.

(** ** [clean_urls] *)

Inductive flag : Type := FULL_URL | PARTIAL_URL | FORWARD_SLASH.

(** The tuples [(url, flag, repo, file_path, i+1)] built by [extract_urls]. *)
Record match_tuple : Type := MatchTuple {
  m_url : str;
  m_flag : flag;
  m_repo : str;
  m_file_path : str;
  m_index : nat
}.

(** The condition of the [while] loop of [clean_urls]. *)
Definition has_dot_prefix (u : str) : bool :=
  startswith (py "./") u || startswith (py "../") u.

(** The [while] loop of [clean_urls]: both [lstrip] calls of the body, for as
    long as the condition holds.  Each round shortens the string, so its
    length bounds the number of rounds ([strip_loop_exit] below). *)
Fixpoint strip_loop (fuel : nat) (u : str) : str :=
  match fuel with
  | O => u
  | S n =>
      if has_dot_prefix u
      then strip_loop n (lstrip (py "../") (lstrip (py "./") u))
      else u
  end.

(** The body of the [for] loop of [clean_urls], on the first component. *)
Definition clean_url (u : str) : str :=
  let u' := strip_loop (length u) u in
  if negb (startswith (py "/") u') then py "/" ++ u' else u'.

Definition clean_urls (urls_to_clean : list match_tuple) : list match_tuple :=
  map (fun t => MatchTuple (clean_url (m_url t)) (m_flag t) (m_repo t)
                  (m_file_path t) (m_index t)) urls_to_clean.

(** ** [extract_urls] *)

(** [[(url.rstrip(','), flag, repo, file_path, i+1) for i, url in enumerate(found)]] *)
Definition tag (fl : flag) (repo file_path : str) (found : list str)
    : list match_tuple :=
  imap (fun i url => MatchTuple (rstrip (py ",") url) fl repo file_path (S i)) found.

Section Extraction.

Variable uni_alnum : N -> bool.

Definition full_urls (text repo file_path : str) : list match_tuple :=
  tag FULL_URL repo file_path (findall url_pattern text).
Definition partial_urls (text repo file_path : str) : list match_tuple :=
  tag PARTIAL_URL repo file_path (findall (partial_url_pattern uni_alnum) text).
Definition forward_slash_strings (text repo file_path : str) : list match_tuple :=
  tag FORWARD_SLASH repo file_path (findall forward_slash_pattern text).

Definition extract_urls (text repo file_path : str) : list match_tuple :=
  full_urls text repo file_path
  ++ clean_urls (partial_urls text repo file_path)
  ++ clean_urls (forward_slash_strings text repo file_path).

End Extraction.

(** ** [search_directory_for_urls] *)

(** The dictionary [all_urls]: it has the same three keys from its creation
    on, so it is a record of three sets. *)
Record result_set : Type := ResultSet {
  rs_full : gset (list N);
  rs_partial : gset (list N);
  rs_forward : gset (list N)
}.

Definition all_urls_empty : result_set := ResultSet ∅ ∅ ∅.

(** [all_urls[fl]] *)
Definition rs_get (rs : result_set) (fl : flag) : gset (list N) :=
  match fl with
  | FULL_URL => rs_full rs
  | PARTIAL_URL => rs_partial rs
  | FORWARD_SLASH => rs_forward rs
  end.

(** [all_urls[fl].add(url)] *)
Definition rs_add (rs : result_set) (fl : flag) (url : str) : result_set :=
  match fl with
  | FULL_URL => ResultSet ({[url]} ∪ rs_full rs) (rs_partial rs) (rs_forward rs)
  | PARTIAL_URL => ResultSet (rs_full rs) ({[url]} ∪ rs_partial rs) (rs_forward rs)
  | FORWARD_SLASH => ResultSet (rs_full rs) (rs_partial rs) ({[url]} ∪ rs_forward rs)
  end.

(** [all_urls.items()], in the order of the keys of the dictionary literal. *)
Definition rs_items (rs : result_set) : list (flag * gset (list N)) :=
  [(FULL_URL, rs_full rs); (PARTIAL_URL, rs_partial rs); (FORWARD_SLASH, rs_forward rs)].

(** [any(char in url for char in forbidden_characters)] *)
Definition has_forbidden (forbidden_characters url : str) : bool :=
  existsb (fun c => char_in c url) forbidden_characters.

(** The innermost loop of [search_directory_for_urls], over the tuples of
    one file. *)
Definition merge_urls (forbidden_characters : str) (all_urls : result_set)
    (urls : list match_tuple) : result_set :=
  fold_left (fun acc t =>
               if has_forbidden forbidden_characters (m_url t) then acc
               else rs_add acc (m_flag t) (m_url t))
    urls all_urls.

(** [os.path.join], [os.path.dirname] and [os.path.basename] on POSIX. *)
Fixpoint split_last_slash (p : str) : str * str :=
  match p with
  | [] => ([], [])
  | c :: p' =>
      let (h, t) := split_last_slash p' in
      match h with
      | _ :: _ => (c :: h, t)
      | [] => if c =? ch_slash then ([c], t) else ([], c :: t)
      end
  end.

Definition path_join (a b : str) : str :=
  if startswith (py "/") b then b
  else match last a with
       | None => b
       | Some c => if c =? ch_slash then a ++ b else a ++ py "/" ++ b
       end.

Definition path_dirname (p : str) : str :=
  let h := fst (split_last_slash p) in
  if forallb (N.eqb ch_slash) h then h else rstrip (py "/") h.

Definition path_basename (p : str) : str := snd (split_last_slash p).

Section Scan.

Variable uni_alnum : N -> bool.

(** The file system as the scan sees it: what [os.walk] yields for a
    directory (each root with its files), and the outcome of
    [is_text_file] and [read_file] for a path. *)
Variable os_walk : str -> list (str * list str).
Variable is_text_file : str -> bool.
Variable read_file : str -> option str.

(** The body of the loop over the files of one root. *)
Definition scan_file (forbidden_characters : str) (all_urls : result_set)
    (root file_name : str) : result_set :=
  let file_path := path_join root file_name in
  if negb (is_text_file file_path) then all_urls
  else match read_file file_path with
       | None => all_urls
       | Some content =>
           let repo := path_basename (path_dirname file_path) in
           merge_urls forbidden_characters all_urls
             (extract_urls uni_alnum content repo file_path)
       end.

Definition search_directory_for_urls (directory forbidden_characters : str)
    : result_set :=
  fold_left (fun acc entry =>
               fold_left (fun acc' file_name =>
                            scan_file forbidden_characters acc' (fst entry) file_name)
                 (snd entry) acc)
    (os_walk directory) all_urls_empty.

End Scan.

(** ** [process_repo] and [process_dir] *)

(** The two lists of forbidden characters. *)
Definition repo_forbidden_characters : str :=
  [ch_space; ch_dquote; ch_lt; ch_gt; ch_backslash; ch_caret; ch_backtick;
   ch_lbrace; ch_rbrace; ch_lbracket; ch_rbracket; ch_pipe; ch_del;
   ch_rparen; ch_lparen; ch_at].

Definition dir_forbidden_characters : str :=
  [ch_space; ch_dquote; ch_lt; ch_gt; ch_backslash; ch_caret; ch_backtick;
   ch_lbrace; ch_rbrace; ch_lbracket; ch_rbracket; ch_pipe; ch_del;
   ch_rparen; ch_lparen].

(** The flag as it is written by the f-string. *)
Definition flag_name (fl : flag) : str :=
  match fl with
  | FULL_URL => py "FULL_URL"
  | PARTIAL_URL => py "PARTIAL_URL"
  | FORWARD_SLASH => py "FORWARD_SLASH"
  end.

(** The text of one [f.write] of the inner loop. *)
Definition url_line (fl : flag) (url : str) : str :=
  flag_name fl ++ py ": " ++ url ++ [ch_nl].

(** A file open for writing is the text written so far; mode ['a'] starts
    from the old content, mode ['w'] from nothing. *)
Definition open_output (old : str) (append : bool) : str :=
  if append then old else [].

(** The inner loop, [for url in url_set]; the order in which a Python set is
    iterated is not specified, [elements] stands for it. *)
Definition write_url_set (fl : flag) (url_set : gset (list N)) (f : str) : str :=
  fold_left (fun f' url => f' ++ url_line fl url) (elements url_set) f.

(** What [process_repo] writes before the lines of a flag. *)
Definition repo_heading (fl : flag) : str :=
  match fl with
  | FULL_URL => py "FULL_URLS:" ++ [ch_nl]
  | PARTIAL_URL => [ch_nl] ++ py "PARTIAL_URLS:" ++ [ch_nl]
  | FORWARD_SLASH => [ch_nl] ++ py "FORWARD_SLASHES:" ++ [ch_nl]
  end.

(** The [with] block of [process_repo]: the content of the output file when
    it is closed. *)
Definition repo_report (urls : result_set) (old : str) (append : bool) : str :=
  fold_left (fun f entry =>
               write_url_set (fst entry) (snd entry) (f ++ repo_heading (fst entry)))
    (rs_items urls) (open_output old append).

(** The [with] block of [process_dir]. *)
Definition dir_report (urls : result_set) (old : str) (append : bool) : str :=
  fold_left (fun f entry => write_url_set (fst entry) (snd entry) f)
    (rs_items urls) (open_output old append).

Section Process.

Variable uni_alnum : N -> bool.
Variable os_walk : str -> list (str * list str).
Variable is_text_file : str -> bool.
Variable read_file : str -> option str.

(** [process_repo], the file system being the one after the clone: the new
    content of the output file. *)
Definition process_repo (old : str) (append : bool) : str :=
  let clone_dir := py "cloned_repo" in
  let urls := search_directory_for_urls uni_alnum os_walk is_text_file read_file
                clone_dir repo_forbidden_characters in
  repo_report urls old append.

Definition process_dir (dir_path old : str) (append : bool) : str :=
  let urls := search_directory_for_urls uni_alnum os_walk is_text_file read_file
                dir_path dir_forbidden_characters in
  dir_report urls old append.

End Process.

(** The base set of forbidden characters as the specification lists it:
    space, double quote, [<], [>], backslash, [^], backtick, the braces, the
    brackets, [|], DEL and the parentheses. *)
Definition spec_base_forbidden : str :=
  [ch_space; ch_dquote; ch_lt; ch_gt; ch_backslash; ch_caret; ch_backtick;
   ch_lbrace; ch_rbrace; ch_lbracket; ch_rbracket; ch_pipe; ch_del;
   ch_lparen; ch_rparen].

(** ** What a pattern denotes

    [den r i w s g g']: the pattern [r] can match the word [w] at position
    [i] when [s] is the text after [w], the group going from [g] to [g'].
    The matcher explores exactly these matches ([run_spec] below). *)

Inductive star_den (D : nat -> str -> str -> option str -> option str -> Prop)
    : nat -> str -> str -> option str -> option str -> Prop :=
| star_done i s g : star_den D i [] s g g
| star_more i w1 w2 s g g1 g2 :
    w1 <> [] ->
    D i w1 (w2 ++ s) g g1 ->
    star_den D (i + length w1) w2 s g1 g2 ->
    star_den D i (w1 ++ w2) s g g2.

Fixpoint den (r : re) (i : nat) (w s : str) (g g' : option str) : Prop :=
  match r with
  | Eps => w = [] /\ g' = g
  | Cls p => exists c, w = [c] /\ p c = true /\ g' = g
  | Seq a b =>
      exists w1 w2 g1,
        w = w1 ++ w2 /\ den a i w1 (w2 ++ s) g g1
        /\ den b (i + length w1) w2 s g1 g'
  | Alt a b => den a i w s g g' \/ den b i w s g g'
  | Star a => star_den (den a) i w s g g'
  | Grp a => (exists g0, den a i w s g g0) /\ g' = Some w
  | Bos => w = [] /\ i = O /\ g' = g
  | Eos => w = [] /\ (s = [] \/ s = [ch_nl]) /\ g' = g
  | Ahead a => w = [] /\ exists w0 s0, s = w0 ++ s0 /\ den a i w0 s0 g g'
  | NotAhead a =>
      w = [] /\ g' = g
      /\ ~ (exists w0 s0 g0, s = w0 ++ s0 /\ den a i w0 s0 g g0)
  end.

(** The patterns of the program have no group inside a lookahead. *)
Fixpoint plain_lookaheads (r : re) : bool :=
  match r with
  | Eps | Cls _ | Bos | Eos => true
  | Seq a b | Alt a b => plain_lookaheads a && plain_lookaheads b
  | Star a | Grp a => plain_lookaheads a
  | Ahead a | NotAhead a => negb (has_group a) && plain_lookaheads a
  end.

(** The characters the repeated part of [url_pattern] accepts one at a time;
    a percent sign and hex digits are among them, so the fifth alternative
    adds none. *)
Definition url_char (c : char) : bool :=
  is_letter c || is_digit c || is_punct1 c || is_punct2 c.

(** ** The frame shared by the two path patterns, in words

    Both path patterns put their group in the same frame: a left boundary,
    three conditions on the rest of the line, the group, a right boundary
    and a condition on the line after the group. *)

(** Whitespace or a quote. *)
Definition is_boundary (c : char) : bool := is_space c || is_quote c.

(** [l] occurs in [s] before any line feed, the way [.*l] finds it. *)
Definition on_line (l s : str) : Prop :=
  exists a b, s = a ++ l ++ b /\ Forall (fun c => is_any c = true) a.

(** The left boundary: the start of the text, or one boundary character. *)
Definition left_bounded (i : nat) (bnd : str) : Prop :=
  (bnd = [] /\ i = O) \/ exists c, bnd = [c] /\ is_boundary c = true.

(** The right boundary: the end of the text (a last line feed is whitespace)
    or a boundary character next. *)
Definition right_bounded (s : str) : Prop :=
  s = [] \/ exists c s0, s = c :: s0 /\ is_boundary c = true.

(** The three conditions on the rest of the line. *)
Definition line_clean (s : str) : Prop :=
  ~ on_line (py "//") s /\ ~ on_line (py "**") s
  /\ ~ on_line (py "/*-") s /\ ~ on_line (py "/*=") s.

Definition framed (G : re) : re :=
  Seq left_boundary
    (Seq no_double_slash
       (Seq no_double_star
          (Seq no_comment_opener (Seq G (Seq right_boundary no_comma))))).

(** A string that starts with exactly one slash. *)
Definition single_slash (u : str) : Prop :=
  exists rest, u = ch_slash :: rest /\ startswith (py "/") rest = false.

(** The two [lstrip] calls of [clean_urls] strip the same set of characters. *)
Definition is_dot_or_slash (c : char) : bool := (c =? ch_dot) || (c =? ch_slash).

(** One round of the loop of [clean_urls]. *)
Definition strip_round (u : str) : str := lstrip (py "../") (lstrip (py "./") u).

(** A word table for concrete inputs: an interpreter whose database has no
    alphanumeric character beyond ASCII.  The inputs it is used at are ASCII
    texts, on which every table gives the same result. *)
Definition ascii_alnum : N -> bool := fun _ => false.

(** The head of a string is neither a dot nor a slash. *)
Definition no_leading_dot_or_slash (u : str) : Prop :=
  match u with
  | [] => True
  | c :: _ => is_dot_or_slash c = false
  end.

(** A string with no leading dot in the strong sense: one slash, and after
    it neither a dot nor a slash. *)
Definition normal_form (u : str) : Prop :=
  exists rest, u = ch_slash :: rest /\ no_leading_dot_or_slash rest.

(** The pattern whose matches get the flag. *)
Definition flag_pattern (uni_alnum : N -> bool) (fl : flag) : re :=
  match fl with
  | FULL_URL => url_pattern
  | PARTIAL_URL => partial_url_pattern uni_alnum
  | FORWARD_SLASH => forward_slash_pattern
  end.

(** The lines of one flag in a report. *)
Definition flag_lines (fl : flag) (urls : result_set) : str :=
  concat (map (url_line fl) (elements (rs_get urls fl))).

(** ** The claim about the PARTIAL_URL pattern, in words *)

(** A token that starts with [./] or [../] and goes on with word and path
    characters. *)
Definition dot_token (uni_alnum : N -> bool) (tok : str) : Prop :=
  exists pfx t,
    tok = pfx ++ t /\ (pfx = py "./" \/ pfx = py "../")
    /\ Forall (fun c => is_path_char uni_alnum c = true) t.

(** What is before the token: nothing, or a text that ends with a boundary
    character. *)
Definition ends_with_boundary (pre : str) : Prop :=
  pre = [] \/ exists pre' c, pre = pre' ++ [c] /\ is_boundary c = true.

(** An occurrence of [l] in the text overlaps the token or touches it. *)
Definition adjacent (l pre tok post : str) : Prop :=
  exists a b,
    pre ++ tok ++ post = a ++ l ++ b
    /\ (length a <= length pre + length tok)%nat
    /\ (length pre <= length a + length l)%nat.

(** The table of the interpreter has no alphanumeric whitespace or quote. *)
Definition table_ok (uni_alnum : N -> bool) : Prop :=
  forall c, is_boundary c = true -> uni_alnum c = false.

(** The string does not start with a character of the class. *)
Definition stops (p : N -> bool) (s : str) : Prop :=
  match s with
  | [] => True
  | c :: _ => p c = false
  end.

(** [on_line] as a test: at each position of the line, does [l] start here? *)
Fixpoint occurs_on_line (l s : str) : bool :=
  startswith l s
  || match s with
     | [] => false
     | c :: s' => is_any c && occurs_on_line l s'
     end.

(** The text of the second scenario of the specification: the word
    [import], a space, and [./utils/helper] in double quotes. *)
Definition import_text : str :=
  (py "import " ++ [ch_dquote]) ++ py "./utils/helper" ++ [ch_dquote].

(** ** Notions used in the proofs *)

(** What it means for a matcher, given any continuation, to explore the
    matches described by [D]: a result comes from one of them, and a failure
    means the continuation refuses them all. *)
Definition explores {R : Type}
    (m : nat -> str -> option str -> cont R -> option R)
    (D : nat -> str -> str -> option str -> option str -> Prop) : Prop :=
  forall (k : cont R) i s g,
    (forall x, m i s g k = Some x ->
       exists w s' g', s = w ++ s' /\ D i w s' g g'
                       /\ k (i + length w)%nat s' g' = Some x)
    /\ (m i s g k = None ->
        forall w s' g', s = w ++ s' -> D i w s' g g' ->
                        k (i + length w)%nat s' g' = None).

(** The fuel of [findall] is enough: each round either shortens the text that
    is left or turns a search that may stay into one that must advance. *)
Definition rounds (s : list N) (adv : bool) : nat :=
  (2 * length s + if adv then 1 else 2)%nat.

(** The shape of a FULL_URL string: a scheme, then URL characters only. *)
Definition full_url_shape (u : list N) : Prop :=
  exists scheme rest,
    u = scheme ++ rest /\ (scheme = py "http://" \/ scheme = py "https://")
    /\ Forall (fun c => url_char c = true) rest.

(** The groups of the two path patterns. *)
Definition forward_group : re :=
  Opt (Grp (Seq (lit (py "/")) (Star (Cls is_fs_char)))).

Definition partial_group (uni_alnum : N -> bool) : re :=
  Grp (Alt (Seq (lit (py "./")) (Star (Cls (is_path_char uni_alnum))))
         (Alt (Seq (lit (py "../")) (Star (Cls (is_path_char uni_alnum))))
            (Seq (lit (py "/")) (Star (Cls (is_path_char uni_alnum)))))).

(** No string of a result set holds a forbidden character. *)
Definition filtered (forbidden_characters : str) (rs : result_set) : Prop :=
  forall fl u, u ∈ rs_get rs fl -> has_forbidden forbidden_characters u = false.

(** The tokens the group of the PARTIAL_URL pattern can match. *)
Definition path_token (uni_alnum : N -> bool) (tok : list N) : Prop :=
  exists pfx t,
    tok = pfx ++ t /\ (pfx = py "./" \/ pfx = py "../" \/ pfx = py "/")
    /\ Forall (fun c => is_path_char uni_alnum c = true) t.

(** ** Exceptions

    A call returns a value or is left by an exception.  The classes are the
    ones the code names or causes; a subclass counts as its class, the way
    an [except] clause sees it.  [OtherException] stands for every other
    class, by its name: [PermissionError], [KeyboardInterrupt] and so on. *)

Inductive exception : Type :=
| CalledProcessError
| FileNotFoundError
| ImportError
| SystemExit (code : nat)
| OtherException (name : str).

Inductive result (A : Type) : Type :=
| Returns (a : A)
| Raises (e : exception).

Arguments Returns {A} a.
Arguments Raises {A} e.

(** ** [check_requirements]

    The two probes call [subprocess.run([program, '--version'], ...,
    check=True)] and [__import__(package)]; either call returns or raises.
    A probe catches the classes of its [except] clauses and lets every other
    exception through.  What is printed is kept as the list of the printed
    lines. *)

Section Requirements.

Variable subprocess_run : str -> result unit.
Variable import_module : str -> result unit.

Definition check_program_installed (program : str) (out : list str)
    : result bool * list str :=
  match subprocess_run program with
  | Returns _ => (Returns true, out ++ [program ++ py " is installed."])
  | Raises CalledProcessError =>
      (Returns false, out ++ [py "Error: " ++ program ++ py " is not installed."])
  | Raises FileNotFoundError =>
      (Returns false, out ++ [py "Error: " ++ program ++ py " is not installed."])
  | Raises e => (Raises e, out)
  end.

Definition check_python_package_installed (package : str) (out : list str)
    : result bool * list str :=
  match import_module package with
  | Returns _ => (Returns true, out ++ [package ++ py " is installed."])
  | Raises ImportError =>
      (Returns false, out ++ [py "Error: " ++ package ++ py " is not installed."])
  | Raises e => (Raises e, out)
  end.

Definition required_programs : list str := [py "git"].
Definition required_packages : list str :=
  [py "re"; py "os"; py "subprocess"; py "shutil"; py "sys"; py "argparse"].

(** One round of either loop: [if not check(item): all_installed = False].
    The state is [all_installed] and the printed lines; an exception that
    leaves [check] leaves the loop and the rounds after it are not run. *)
Definition check_step (check : str -> list str -> result bool * list str)
    (st : result bool * list str) (item : str) : result bool * list str :=
  match fst st with
  | Raises e => st
  | Returns all_installed =>
      match check item (snd st) with
      | (Returns ok, out) =>
          (Returns (if negb ok then false else all_installed), out)
      | (Raises e, out) => (Raises e, out)
      end
  end.

Definition check_requirements (out : list str) : result bool * list str :=
  fold_left (check_step check_python_package_installed) required_packages
    (fold_left (check_step check_program_installed) required_programs
       (Returns true, out)).

End Requirements.

(** ** [main]

    [main] reads the command line itself: [parse_args] returns the namespace
    or raises [SystemExit], with status 2 when an option is unknown or
    [--output] is missing and status 0 after [--help].  [sys.exit(1)] raises
    [SystemExit] with status 1.  The file system is what each scan sees of
    it; the output file is its content before and after.  What is printed
    is left out, the output file is taken to lie outside the clone
    directory, the files that are opened can be opened and read, and
    [git clone] raises nothing but the [CalledProcessError] that
    [clone_github_repo] catches. *)

Record cli_args : Type := CliArgs {
  arg_dir : option str;
  arg_repo : option str;
  arg_file : option str;
  arg_output : str;
  arg_append : bool
}.

Record fs_view : Type := FsView {
  fs_walk : str -> list (str * list str);
  fs_is_text : str -> bool;
  fs_read : str -> option str
}.

(** How [main] ends, and the output file when it does. *)
Record outcome : Type := Outcome {
  ending : result unit;
  output_file : str
}.

(** The truth value of an optional string argument: [None] and the empty
    string count as absent. *)
Definition given (a : option str) : option str :=
  match a with
  | Some (c :: s) => Some (c :: s)
  | _ => None
  end.

(** [s.strip()] *)
Fixpoint lstrip_space (s : str) : str :=
  match s with
  | [] => []
  | c :: s' => if is_space c then lstrip_space s' else s
  end.

Fixpoint rstrip_space (s : str) : str :=
  match s with
  | [] => []
  | c :: s' =>
      match rstrip_space s' with
      | [] => if is_space c then [] else [c]
      | t => c :: t
      end
  end.

Definition strip (s : str) : str := rstrip_space (lstrip_space s).

Section Main.

Variable uni_alnum : N -> bool.
Variable subprocess_run : str -> result unit.
Variable import_module : str -> result unit.
(** [parser.parse_args()] on the arguments of the command line. *)
Variable parse_args : list str -> result cli_args.
Variable isdir : str -> bool.
Variable isfile : str -> bool.
(** [f.readlines()] of the file of repository URLs. *)
Variable readlines : str -> list str.
(** The file system a [--dir] scan sees, and the one the scan of the [i]-th
    repository sees after its clone. *)
Variable local_fs : fs_view.
Variable cloned_fs : nat -> str -> fs_view.

Definition run_process_dir (dir_path old : str) (append : bool) : str :=
  process_dir uni_alnum (fs_walk local_fs) (fs_is_text local_fs)
    (fs_read local_fs) dir_path old append.

Definition run_process_repo (i : nat) (repo_url old : str) (append : bool) : str :=
  process_repo uni_alnum (fs_walk (cloned_fs i repo_url))
    (fs_is_text (cloned_fs i repo_url)) (fs_read (cloned_fs i repo_url))
    old append.

(** The loop of the [--file] branch: the output file after all the
    repositories from the [i]-th on, each called with the same [append]. *)
Fixpoint process_repo_urls (i : nat) (repo_urls : list str) (old : str)
    (append : bool) : str :=
  match repo_urls with
  | [] => old
  | repo_url :: rest =>
      process_repo_urls (S i) rest
        (run_process_repo i (strip repo_url) old append) append
  end.

(** Lines 186 to 204: the choice of the mode, once the arguments are parsed. *)
Definition dispatch (args : cli_args) (old : str) : outcome :=
  match given (arg_dir args) with
  | Some dir =>
      if negb (isdir dir) then Outcome (Raises (SystemExit 1)) old
      else Outcome (Returns tt) (run_process_dir dir old (arg_append args))
  | None =>
      match given (arg_repo args) with
      | Some repo =>
          Outcome (Returns tt) (run_process_repo 0 repo old (arg_append args))
      | None =>
          match given (arg_file args) with
          | Some file =>
              if negb (isfile file) then Outcome (Raises (SystemExit 1)) old
              else Outcome (Returns tt)
                     (process_repo_urls 0 (readlines file) old
                        (arg_append args))
          | None => Outcome (Raises (SystemExit 1)) old
          end
      end
  end.

Definition main (argv : list str) (old : str) : outcome :=
  match fst (check_requirements subprocess_run import_module []) with
  | Raises e => Outcome (Raises e) old
  | Returns all_installed =>
      if negb all_installed then Outcome (Raises (SystemExit 1)) old
      else
        match parse_args argv with
        | Raises e => Outcome (Raises e) old
        | Returns args => dispatch args old
        end
  end.

End Main.

(** ** Notions used for the further properties *)

Section FileYields.

Variable uni_alnum : N -> bool.
Variable is_text_file : str -> bool.
Variable read_file : str -> option str.

(** The file [file_name] under [root] passes the probe, can be read, and one
    of the tuples of its content has the flag [fl] and the string [u]. *)
Definition file_yields (root file_name : list N) (fl : flag) (u : list N) : Prop :=
  is_text_file (path_join root file_name) = true
  /\ exists content,
       read_file (path_join root file_name) = Some content
       /\ exists t,
            In t (extract_urls uni_alnum content
                    (path_basename (path_dirname (path_join root file_name)))
                    (path_join root file_name))
            /\ m_flag t = fl /\ m_url t = u.

End FileYields.

(** The strings of [l] occur in [s] one after the other, without overlap. *)
Inductive segments : list str -> str -> Prop :=
| segments_nil s : segments [] s
| segments_cons pre w l s : segments l s -> segments (w :: l) (pre ++ w ++ s).

(** The item that [findall] returns for a match lies inside the match. *)
Definition item_inside (pat : re) : Prop :=
  forall i w s g,
    den pat i w s None g ->
    exists a b, w = a ++ (if has_group pat then default [] g else w) ++ b.

(** The lines of a text, each without its line feed, the way a reader of the
    report sees them. *)
Fixpoint report_lines (s : str) : list str :=
  match s with
  | [] => []
  | c :: s' =>
      if c =? ch_nl then [] :: report_lines s'
      else match report_lines s' with
           | [] => [[c]]
           | l :: ls => (c :: l) :: ls
           end
  end.

(** The line of a string in a report, without its line feed. *)
Definition line_text (fl : flag) (url : str) : str :=
  flag_name fl ++ py ": " ++ url.

(** The exceptions each probe catches. *)
Definition program_probe_catches (e : exception) : bool :=
  match e with
  | CalledProcessError | FileNotFoundError => true
  | _ => false
  end.

Definition package_probe_catches (e : exception) : bool :=
  match e with
  | ImportError => true
  | _ => false
  end.

(** The call of a probe returns. *)
Definition call_returns (call : str -> result unit) (item : str) : bool :=
  match call item with
  | Returns _ => true
  | Raises _ => false
  end.

(** The call of a probe returns or raises an exception the probe catches. *)
Definition probe_completes (catches : exception -> bool)
    (call : str -> result unit) (item : str) : bool :=
  match call item with
  | Returns _ => true
  | Raises e => catches e
  end.

(** The line printed for a requirement, by the outcome of its probe. *)
Definition requirement_line (call : str -> result unit) (item : str) : str :=
  if call_returns call item then item ++ py " is installed."
  else py "Error: " ++ item ++ py " is not installed.".

(** The three headings of a repository report, with nothing under them. *)
Definition empty_repo_report : str :=
  py "FULL_URLS:" ++ [ch_nl]
  ++ [ch_nl] ++ py "PARTIAL_URLS:" ++ [ch_nl]
  ++ [ch_nl] ++ py "FORWARD_SLASHES:" ++ [ch_nl].

(** * Properties *)

(** ** Strings *)

Lemma startswith_app (p s : str) : startswith p (p ++ s) = true.
Proof.
  induction p as [|a p IH]; simpl; [reflexivity|].
  rewrite N.eqb_refl. exact IH.
Qed.

Lemma startswith_inv (p s : str) :
  startswith p s = true -> exists t, s = p ++ t.
Proof.
  revert s. induction p as [|a p IH]; intros s H.
  - exists s. reflexivity.
  - destruct s as [|b s]; simpl in H; [discriminate|].
    apply andb_true_iff in H as [Hab Hp].
    apply N.eqb_eq in Hab. subst b.
    destruct (IH _ Hp) as [t ->]. exists t. reflexivity.
Qed.

Lemma startswith_one (a c : char) (t : str) : startswith [a] (c :: t) = (a =? c).
Proof. simpl. apply andb_true_r. Qed.

Lemma char_in_dot_slash (c : char) : char_in c (py "./") = is_dot_or_slash c.
Proof.
  unfold char_in, is_dot_or_slash. change (py "./") with [ch_dot; ch_slash].
  simpl. rewrite orb_false_r. reflexivity.
Qed.

Lemma char_in_dot_dot_slash (c : char) : char_in c (py "../") = is_dot_or_slash c.
Proof.
  unfold char_in, is_dot_or_slash. change (py "../") with [ch_dot; ch_dot; ch_slash].
  simpl. rewrite orb_false_r. destruct (c =? ch_dot); reflexivity.
Qed.

Lemma lstrip_ext (cs1 cs2 s : str) :
  (forall c, char_in c cs1 = char_in c cs2) -> lstrip cs1 s = lstrip cs2 s.
Proof.
  intros H. induction s as [|c s IH]; simpl; [reflexivity|].
  rewrite H, IH. reflexivity.
Qed.

Lemma lstrip_head (cs s : str) :
  match lstrip cs s with
  | [] => True
  | c :: _ => char_in c cs = false
  end.
Proof.
  induction s as [|c s IH]; simpl; [exact I|].
  destruct (char_in c cs) eqn:E; [exact IH|exact E].
Qed.

Lemma lstrip_fixed (cs s : str) :
  match s with [] => True | c :: _ => char_in c cs = false end ->
  lstrip cs s = s.
Proof. destruct s as [|c s]; simpl; [reflexivity|]. intros ->. reflexivity. Qed.

Lemma lstrip_idem (cs s : str) : lstrip cs (lstrip cs s) = lstrip cs s.
Proof. apply lstrip_fixed, lstrip_head. Qed.

(** [lstrip] removes a prefix made of characters of the set, and only that. *)
Lemma lstrip_split (cs s : str) :
  exists pre, s = pre ++ lstrip cs s /\ Forall (fun c => char_in c cs = true) pre.
Proof.
  induction s as [|c s (pre & E & F)]; simpl.
  - exists []. split; [reflexivity|constructor].
  - destruct (char_in c cs) eqn:Ec.
    + exists (c :: pre). split; [simpl; f_equal; exact E|constructor; assumption].
    + exists []. split; [reflexivity|constructor].
Qed.

Lemma lstrip_length (cs s : str) : (length (lstrip cs s) <= length s)%nat.
Proof.
  induction s as [|c s IH]; simpl; [lia|].
  destruct (char_in c cs); simpl; lia.
Qed.

(** ** The normaliser *)

Lemma has_dot_prefix_head (u : str) :
  has_dot_prefix u = true -> exists t, u = ch_dot :: t.
Proof.
  unfold has_dot_prefix. intros H. apply orb_true_iff in H as [H|H];
    apply startswith_inv in H as [t ->]; eexists; reflexivity.
Qed.

Lemma strip_round_lstrip (u : str) : strip_round u = lstrip (py "./") u.
Proof.
  unfold strip_round.
  rewrite (lstrip_ext (py "../") (py "./")).
  - apply lstrip_idem.
  - intros c. rewrite char_in_dot_slash, char_in_dot_dot_slash. reflexivity.
Qed.

Lemma strip_round_head (u : str) :
  match strip_round u with
  | [] => True
  | c :: _ => is_dot_or_slash c = false
  end.
Proof.
  rewrite strip_round_lstrip.
  pose proof (lstrip_head (py "./") u) as H.
  destruct (lstrip (py "./") u) as [|c t]; [exact I|].
  rewrite char_in_dot_slash in H. exact H.
Qed.

(** After one round the condition of the loop is false. *)
Lemma strip_round_exit (u : str) : has_dot_prefix (strip_round u) = false.
Proof.
  destruct (has_dot_prefix (strip_round u)) eqn:E; [|reflexivity].
  apply has_dot_prefix_head in E as [t E].
  pose proof (strip_round_head u) as H. rewrite E in H.
  discriminate H.
Qed.

Lemma strip_round_shorter (u : str) :
  has_dot_prefix u = true -> (length (strip_round u) < length u)%nat.
Proof.
  intros H. apply has_dot_prefix_head in H as [t ->].
  rewrite strip_round_lstrip. simpl.
  pose proof (lstrip_length (py "./") t). simpl. lia.
Qed.

(** The fuel given to the loop is enough: it always leaves through its
    condition. *)
Lemma strip_loop_exit (n : nat) (u : str) :
  (length u <= n)%nat -> has_dot_prefix (strip_loop n u) = false.
Proof.
  revert u. induction n as [|n IH]; intros u Hn.
  - destruct u; [reflexivity|simpl in Hn; lia].
  - simpl. destruct (has_dot_prefix u) eqn:E; [|exact E].
    apply IH. fold (strip_round u).
    pose proof (strip_round_shorter u E). lia.
Qed.

Lemma strip_loop_unfold (n : nat) (u : str) :
  (length u <= n)%nat ->
  strip_loop n u = if has_dot_prefix u then strip_round u else u.
Proof.
  intros Hn. destruct n as [|n].
  - destruct u; [reflexivity|simpl in Hn; lia].
  - simpl. destruct (has_dot_prefix u) eqn:E; [|reflexivity].
    fold (strip_round u). destruct n as [|n]; [reflexivity|].
    simpl. rewrite strip_round_exit. reflexivity.
Qed.

(** More fuel does not change the result. *)
Lemma strip_loop_stable (n : nat) (u : str) :
  (length u <= n)%nat -> strip_loop n u = strip_loop (length u) u.
Proof.
  intros Hn. rewrite !strip_loop_unfold by lia. reflexivity.
Qed.

Lemma clean_url_dot (u : str) :
  has_dot_prefix u = true -> clean_url u = ch_slash :: lstrip (py "./") u.
Proof.
  intros H. unfold clean_url.
  rewrite strip_loop_unfold by lia. rewrite H.
  pose proof (strip_round_head u) as Hh.
  rewrite strip_round_lstrip in *.
  destruct (lstrip (py "./") u) as [|c t]; [reflexivity|].
  change (py "/") with [ch_slash]. rewrite startswith_one.
  unfold is_dot_or_slash in Hh. apply orb_false_iff in Hh as [_ Hs].
  rewrite N.eqb_sym, Hs. reflexivity.
Qed.

Lemma clean_url_plain (u : str) :
  has_dot_prefix u = false ->
  clean_url u = if startswith (py "/") u then u else ch_slash :: u.
Proof.
  intros H. unfold clean_url.
  rewrite strip_loop_unfold by lia. rewrite H.
  destruct (startswith (py "/") u); reflexivity.
Qed.

Lemma clean_url_slash (t : str) : clean_url (ch_slash :: t) = ch_slash :: t.
Proof. rewrite clean_url_plain; reflexivity. Qed.

(** Every output of the normaliser starts with a slash. *)
Lemma clean_url_starts (u : str) : exists t, clean_url u = ch_slash :: t.
Proof.
  destruct (has_dot_prefix u) eqn:E.
  - rewrite clean_url_dot by exact E. eexists; reflexivity.
  - rewrite clean_url_plain by exact E.
    destruct (startswith (py "/") u) eqn:Es.
    + apply startswith_inv in Es as [t ->]. exists t. reflexivity.
    + eexists; reflexivity.
Qed.

(** ** The matcher explores the matches of the pattern *)

Lemma den_no_group (r : re) :
  has_group r = false ->
  forall i w s g g', den r i w s g g' -> g' = g.
Proof.
  induction r as [|p|a IHa b IHb|a IHa b IHb|a IHa|a IHa| | |a IHa|a IHa];
    simpl; intros Hg i w s g g' H.
  - tauto.
  - destruct H as (c & _ & _ & H). exact H.
  - apply orb_false_iff in Hg as [Ha Hb].
    destruct H as (w1 & w2 & g1 & _ & H1 & H2).
    apply IHa in H1; [|exact Ha]. apply IHb in H2; [|exact Hb]. congruence.
  - apply orb_false_iff in Hg as [Ha Hb].
    destruct H as [H|H]; [apply IHa in H|apply IHb in H]; assumption.
  - induction H as [|i w1 w2 s g g1 g2 _ H1 _ IH]; [reflexivity|].
    apply IHa in H1; [|exact Hg]. congruence.
  - discriminate.
  - tauto.
  - tauto.
  - destruct H as (_ & w0 & s0 & _ & H). apply IHa in H; assumption.
  - tauto.
Qed.

Lemma star_den_inv D i w s g g' :
  star_den D i w s g g' ->
  (w = [] /\ g' = g)
  \/ exists w1 w2 g1, w = w1 ++ w2 /\ w1 <> [] /\ D i w1 (w2 ++ s) g g1
                      /\ star_den D (i + length w1) w2 s g1 g'.
Proof.
  destruct 1 as [|i w1 w2 s g g1 g2 Hne H1 H2]; [left; split; reflexivity|].
  right. exists w1, w2, g1. repeat split; assumption.
Qed.

Lemma star_loop_spec {R : Type}
    (body : nat -> str -> option str -> cont R -> option R)
    (D : nat -> str -> str -> option str -> option str -> Prop) (k : cont R) :
  explores body D ->
  forall n i s g, (length s <= n)%nat ->
    (forall x, star_loop body k n i s g = Some x ->
       exists w s' g', s = w ++ s' /\ star_den D i w s' g g'
                       /\ k (i + length w)%nat s' g' = Some x)
    /\ (star_loop body k n i s g = None ->
        forall w s' g', s = w ++ s' -> star_den D i w s' g g' ->
                        k (i + length w)%nat s' g' = None).
Proof.
  intros Hbody. induction n as [|n IH]; intros i s g Hn.
  - destruct s; [|simpl in Hn; lia]. simpl. split.
    + intros x Hx. exists [], [], g. rewrite Nat.add_0_r.
      repeat split; [constructor|exact Hx].
    + intros Hx w s' g' E HD.
      symmetry in E. apply app_eq_nil in E as [-> ->].
      apply star_den_inv in HD as [[_ ->]|(w1 & w2 & g1 & Ew & Hne & _)].
      * rewrite Nat.add_0_r. exact Hx.
      * symmetry in Ew. apply app_eq_nil in Ew as [-> _]. contradiction.
  - simpl.
    set (k1 := fun i' s' g' =>
                 if (i <? i')%nat then star_loop body k n i' s' g' else None).
    destruct (Hbody k1 i s g) as [HS HC].
    destruct (body i s g k1) as [y|] eqn:Eb; split.
    + intros x Hx. injection Hx as ->.
      destruct (HS _ eq_refl) as (w1 & s1 & g1 & -> & HD & Hk).
      unfold k1 in Hk. destruct (i <? i + length w1)%nat eqn:Elt; [|discriminate].
      apply Nat.ltb_lt in Elt.
      assert (Hne : w1 <> []) by (intros ->; simpl in Elt; lia).
      assert (Hlen : (length s1 <= n)%nat).
      { rewrite length_app in Hn. destruct w1; [contradiction|simpl in Hn; lia]. }
      destruct (IH (i + length w1)%nat s1 g1 Hlen) as [IHS _].
      destruct (IHS _ Hk) as (w2 & s2 & g2 & -> & HD2 & Hk2).
      exists (w1 ++ w2), s2, g2. rewrite length_app, Nat.add_assoc, <- app_assoc.
      repeat split; [|exact Hk2].
      eapply star_more; eassumption.
    + discriminate.
    + intros x Hx. exists [], s, g. rewrite Nat.add_0_r.
      repeat split; [constructor|exact Hx].
    + intros Hx w s' g' E HD.
      apply star_den_inv in HD as [[-> ->]|(w1 & w2 & g1 & -> & Hne & H1 & H2)].
      * rewrite Nat.add_0_r. simpl in E. subst s'. exact Hx.
      * subst s. rewrite <- app_assoc in HC.
        specialize (HC eq_refl w1 (w2 ++ s') g1 eq_refl H1).
        unfold k1 in HC.
        assert (Elt : (i <? i + length w1)%nat = true).
        { apply Nat.ltb_lt. destruct w1; [contradiction|simpl; lia]. }
        rewrite Elt in HC.
        assert (Hlen : (length (w2 ++ s') <= n)%nat).
        { rewrite !length_app in Hn. rewrite length_app.
          destruct w1; [contradiction|simpl in Hn; lia]. }
        destruct (IH (i + length w1)%nat (w2 ++ s') g1 Hlen) as [_ IHC].
        specialize (IHC HC w2 s' g' eq_refl H2).
        rewrite length_app, Nat.add_assoc. exact IHC.
Qed.

Theorem run_spec (r : re) :
  plain_lookaheads r = true -> forall R : Type, explores (R := R) (run r) (den r).
Proof.
  induction r as [|p|a IHa b IHb|a IHa b IHb|a IHa|a IHa| | |a IHa|a IHa];
    simpl; intros Hwf R k i s g.
  - (* Eps *)
    split.
    + intros x Hx. exists [], s, g. rewrite Nat.add_0_r. auto.
    + intros Hx w s' g' E [-> ->]. simpl in E. subst s'.
      rewrite Nat.add_0_r. exact Hx.
  - (* Cls *)
    split.
    + intros x Hx. destruct s as [|c s0]; [discriminate|].
      destruct (p c) eqn:Ep; [|discriminate].
      exists [c], s0, g. simpl. rewrite Nat.add_1_r. eauto 6.
    + intros Hx w s' g' E (c & -> & Ep & ->). simpl in E. subst s.
      rewrite Ep in Hx. simpl. rewrite Nat.add_1_r. exact Hx.
  - (* Seq *)
    apply andb_true_iff in Hwf as [Ha Hb].
    set (k1 := fun i' s' g' => run b i' s' g' k).
    destruct (IHa Ha R k1 i s g) as [HS HC]. split.
    + intros x Hx. destruct (HS _ Hx) as (w1 & s1 & g1 & -> & H1 & Hk).
      destruct (IHb Hb R k (i + length w1)%nat s1 g1) as [HS2 _].
      destruct (HS2 _ Hk) as (w2 & s2 & g2 & -> & H2 & Hk2).
      exists (w1 ++ w2), s2, g2.
      rewrite length_app, Nat.add_assoc, <- app_assoc.
      split; [reflexivity|]. split; [|exact Hk2].
      exists w1, w2, g1. auto.
    + intros Hx w s' g' E (w1 & w2 & g1 & -> & H1 & H2).
      rewrite <- app_assoc in E.
      specialize (HC Hx w1 (w2 ++ s') g1 E H1). unfold k1 in HC.
      destruct (IHb Hb R k (i + length w1)%nat (w2 ++ s') g1) as [_ HC2].
      rewrite length_app, Nat.add_assoc. exact (HC2 HC w2 s' g' eq_refl H2).
  - (* Alt *)
    apply andb_true_iff in Hwf as [Ha Hb].
    destruct (IHa Ha R k i s g) as [HSa HCa].
    destruct (IHb Hb R k i s g) as [HSb HCb].
    destruct (run a i s g k) as [y|] eqn:Ea; split.
    + intros x Hx. injection Hx as ->.
      destruct (HSa _ eq_refl) as (w & s' & g' & E & H & Hk).
      exists w, s', g'. auto.
    + discriminate.
    + intros x Hx. destruct (HSb _ Hx) as (w & s' & g' & E & H & Hk).
      exists w, s', g'. auto.
    + intros Hx w s' g' E [H|H]; [exact (HCa eq_refl w s' g' E H)|exact (HCb Hx w s' g' E H)].
  - (* Star *)
    apply (star_loop_spec (fun i' s' g' k' => run a i' s' g' k') (den a) k);
      [|reflexivity].
    intros k' i' s' g'. apply (IHa Hwf R k' i' s' g').
  - (* Grp *)
    set (k1 := fun (i' : nat) (s' : list N) (_ : option (list N)) =>
                 k i' s' (Some (take (i' - i) s))).
    destruct (IHa Hwf R k1 i s g) as [HS HC]. split.
    + intros x Hx. destruct (HS _ Hx) as (w & s' & g' & E & H & Hk).
      exists w, s', (Some w). split; [exact E|]. split; [eauto|].
      unfold k1 in Hk. subst s.
      replace (i + length w - i)%nat with (length w) in Hk by lia.
      rewrite take_app_length in Hk. exact Hk.
    + intros Hx w s' g' E [[g0 H] ->].
      specialize (HC Hx w s' g0 E H). unfold k1 in HC. subst s.
      replace (i + length w - i)%nat with (length w) in HC by lia.
      rewrite take_app_length in HC. exact HC.
  - (* Bos *)
    split.
    + intros x Hx. destruct (Nat.eqb_spec i 0); [|discriminate].
      exists [], s, g. rewrite Nat.add_0_r. auto.
    + intros Hx w s' g' E (-> & -> & ->). simpl in *. subst s'. exact Hx.
  - (* Eos *)
    split.
    + intros x Hx. exists [], s, g. rewrite Nat.add_0_r.
      split; [reflexivity|]. split; [|destruct s as [|c [|d s]]; try discriminate].
      * split; [reflexivity|]. split; [|reflexivity].
        destruct s as [|c [|d s]]; [left; reflexivity| |discriminate].
        destruct (N.eqb_spec c ch_nl); [subst; right; reflexivity|discriminate].
      * exact Hx.
      * destruct (c =? ch_nl); [exact Hx|discriminate].
    + intros Hx w s' g' E (-> & Hs & ->). simpl in E. subst s'.
      rewrite Nat.add_0_r. destruct Hs as [->| ->]; exact Hx.
  - (* Ahead *)
    apply andb_true_iff in Hwf as [Hg Ha]. apply negb_true_iff in Hg.
    destruct (IHa Ha (option (list N)) (fun _ _ g' => Some g') i s g) as [HS HC].
    destruct (run a i s g (fun _ _ g' => Some g')) as [g1|] eqn:Ea; split.
    + intros x Hx. destruct (HS _ eq_refl) as (w0 & s0 & g0 & E & H & Hk).
      injection Hk as ->. exists [], s, g1. rewrite Nat.add_0_r.
      split; [reflexivity|]. split; [|exact Hx].
      split; [reflexivity|]. exists w0, s0. auto.
    + intros Hx w s' g' E (-> & w0 & s0 & E0 & H). simpl in E. subst s'.
      rewrite Nat.add_0_r.
      destruct (HS _ eq_refl) as (w1 & s1 & g0 & _ & H1 & Hk).
      injection Hk as ->.
      apply (den_no_group a Hg) in H. apply (den_no_group a Hg) in H1.
      subst. exact Hx.
    + discriminate.
    + intros _ w s' g' E (-> & w0 & s0 & E0 & H). simpl in E. subst s'.
      specialize (HC eq_refl w0 s0 g' E0 H). discriminate.
  - (* NotAhead *)
    apply andb_true_iff in Hwf as [Hg Ha].
    destruct (IHa Ha unit (fun _ _ _ => Some tt) i s g) as [HS HC].
    destruct (run a i s g (fun _ _ _ => Some tt)) as [u|] eqn:Ea; split.
    + discriminate.
    + intros _ w s' g' E (-> & -> & Hno). simpl in E. subst s'.
      destruct (HS _ eq_refl) as (w0 & s0 & g0 & E & H & _).
      exfalso. apply Hno. exists w0, s0, g0. auto.
    + intros x Hx. exists [], s, g. rewrite Nat.add_0_r.
      split; [reflexivity|]. split; [|exact Hx].
      split; [reflexivity|]. split; [reflexivity|].
      intros (w0 & s0 & g0 & E & H).
      specialize (HC eq_refl w0 s0 g0 E H). discriminate.
    + intros Hx w s' g' E (-> & -> & _). simpl in E. subst s'.
      rewrite Nat.add_0_r. exact Hx.
Qed.

(** ** [search] and [findall] *)

(** A successful search skipped a prefix of the text and then matched. *)
Lemma search_sound (pat : re) :
  plain_lookaheads pat = true ->
  forall (s : list N) p adv b e g,
    search pat p s adv = Some (b, e, g) ->
    exists skip w s',
      s = skip ++ w ++ s' /\ b = (p + length skip)%nat /\ e = (b + length w)%nat
      /\ den pat b w s' None g
      /\ (adv = true -> skip = [] -> w <> []).
Proof.
  intros Hwf. induction s as [|c s IH]; intros p adv b e g H; simpl in H.
  - destruct (run_spec pat Hwf _ (accept p adv) p [] None) as [HS _].
    destruct (run pat p [] None (accept p adv)) as [x|] eqn:Er; [|discriminate].
    injection H as ->.
    destruct (HS _ eq_refl) as (w & s' & g' & E & HD & Hk).
    unfold accept in Hk.
    destruct (adv && (p + length w =? p)%nat) eqn:Ea; [discriminate|].
    injection Hk as <- <- <-.
    exists [], w, s'. simpl. rewrite Nat.add_0_r.
    repeat split; try assumption.
    intros -> _ ->. simpl in Ea. rewrite Nat.add_0_r, Nat.eqb_refl in Ea. discriminate.
  - destruct (run_spec pat Hwf _ (accept p adv) p (c :: s) None) as [HS _].
    destruct (run pat p (c :: s) None (accept p adv)) as [x|] eqn:Er.
    + injection H as ->.
      destruct (HS _ eq_refl) as (w & s' & g' & E & HD & Hk).
      unfold accept in Hk.
      destruct (adv && (p + length w =? p)%nat) eqn:Ea; [discriminate|].
      injection Hk as <- <- <-.
      exists [], w, s'. simpl. rewrite Nat.add_0_r.
      repeat split; try assumption.
      intros -> _ ->. simpl in Ea. rewrite Nat.add_0_r, Nat.eqb_refl in Ea. discriminate.
    + destruct (IH _ _ _ _ _ H) as (skip & w & s' & -> & -> & -> & HD & _).
      exists (c :: skip), w, s'. simpl.
      replace (p + S (length skip))%nat with (S (p + length skip)) by lia.
      split; [reflexivity|]. split; [reflexivity|]. split; [reflexivity|].
      split; [exact HD|discriminate].
Qed.

(** Every item of [findall] comes from a match of the pattern in the text:
    the group of the match, or the matched word when there is no group. *)
Lemma findall_from_sound (pat : re) :
  plain_lookaheads pat = true ->
  forall fuel p (s : list N) adv u,
    In u (findall_from fuel pat p s adv) ->
    exists pre w s' g,
      s = pre ++ w ++ s' /\ den pat (p + length pre)%nat w s' None g
      /\ u = if has_group pat then default [] g else w.
Proof.
  intros Hwf. induction fuel as [|fuel IH]; intros p s adv u H; simpl in H.
  - contradiction.
  - destruct (search pat p s adv) as [[[b e] g]|] eqn:Es; [|contradiction].
    destruct (search_sound pat Hwf _ _ _ _ _ _ Es)
      as (skip & w & s' & -> & -> & -> & HD & _).
    destruct H as [<-|H].
    + exists skip, w, s', g. repeat split; [exact HD|].
      unfold item. destruct (has_group pat); [reflexivity|].
      replace (p + length skip - p)%nat with (length skip) by lia.
      replace (p + length skip + length w - (p + length skip))%nat with (length w) by lia.
      rewrite drop_app_length, take_app_length. reflexivity.
    + replace (p + length skip + length w - p)%nat
        with (length skip + length w)%nat in H by lia.
      rewrite app_assoc, <- length_app, drop_app_length in H.
      destruct (IH _ _ _ _ H) as (pre & w' & s'' & g' & -> & HD' & ->).
      exists (skip ++ w ++ pre), w', s'', g'.
      rewrite !length_app, <- !app_assoc.
      repeat split.
      replace (p + (length skip + (length w + length pre)))%nat
        with (p + length skip + length w + length pre)%nat by lia.
      exact HD'.
Qed.

Lemma findall_sound (pat : re) (text u : list N) :
  plain_lookaheads pat = true ->
  In u (findall pat text) ->
  exists pre w s' g,
    text = pre ++ w ++ s' /\ den pat (length pre) w s' None g
    /\ u = if has_group pat then default [] g else w.
Proof.
  intros Hwf H. apply (findall_from_sound pat Hwf) in H.
  exact H.
Qed.

Lemma findall_from_stable (pat : re) :
  plain_lookaheads pat = true ->
  forall n (s : list N) adv p f1 f2,
    (rounds s adv <= n)%nat -> (n <= f1)%nat -> (n <= f2)%nat ->
    findall_from f1 pat p s adv = findall_from f2 pat p s adv.
Proof.
  intros Hwf. induction n as [|n IH]; intros s adv p f1 f2 Hr H1 H2.
  - unfold rounds in Hr. destruct adv; lia.
  - destruct f1 as [|f1]; [lia|]. destruct f2 as [|f2]; [lia|]. simpl.
    destruct (search pat p s adv) as [[[b e] g]|] eqn:Es; [|reflexivity].
    f_equal.
    destruct (search_sound pat Hwf _ _ _ _ _ _ Es)
      as (skip & w & s' & -> & -> & -> & _ & Hadv).
    replace (p + length skip + length w - p)%nat
      with (length skip + length w)%nat by lia.
    rewrite app_assoc, <- length_app, drop_app_length.
    apply IH; try lia.
    unfold rounds in *. rewrite !length_app in Hr.
    destruct (Nat.eqb_spec (p + length skip + length w) (p + length skip)) as [E|E].
    + assert (length w = O) by lia.
      destruct skip as [|c skip]; simpl in *; [|lia].
      destruct adv; [|lia].
      destruct w; [|simpl in *; lia]. exfalso. apply Hadv; reflexivity.
    + destruct adv; lia.
Qed.

Lemma findall_fuel (pat : re) (text : list N) (fuel : nat) :
  plain_lookaheads pat = true ->
  (2 * length text + 2 <= fuel)%nat ->
  findall_from fuel pat 0 text false = findall pat text.
Proof.
  intros Hwf Hf. unfold findall.
  apply (findall_from_stable pat Hwf (2 * length text + 2)); unfold rounds; lia.
Qed.

(** ** What the patterns match *)

Lemma den_lit (l : list N) i w s g g' :
  den (lit l) i w s g g' -> w = l /\ g' = g.
Proof.
  revert i w g. induction l as [|c l IH]; simpl; intros i w g H.
  - exact H.
  - destruct H as (w1 & w2 & g1 & -> & (c' & -> & Ec & ->) & H2).
    apply IH in H2 as [-> ->]. unfold is_char in Ec.
    apply N.eqb_eq in Ec. subst c'. split; reflexivity.
Qed.

Lemma den_lit_intro (l : list N) i s g : den (lit l) i l s g g.
Proof.
  revert i. induction l as [|c l IH]; simpl; intros i.
  - split; reflexivity.
  - exists [c], l, g. split; [reflexivity|]. split; [|apply IH].
    exists c. unfold is_char. rewrite N.eqb_refl. auto.
Qed.

Lemma star_den_Forall D (Q : N -> Prop) :
  (forall i w s g g', D i w s g g' -> Forall Q w) ->
  forall i w s g g', star_den D i w s g g' -> Forall Q w.
Proof.
  intros HD i w s g g' H.
  induction H as [|i w1 w2 s g g1 g2 _ H1 _ IH]; [constructor|].
  apply Forall_app. split; [eapply HD; eassumption|exact IH].
Qed.

Lemma den_cls_star (p : N -> bool) i w s g g' :
  den (Star (Cls p)) i w s g g' -> Forall (fun c => p c = true) w /\ g' = g.
Proof.
  simpl. intros H.
  induction H as [|i w1 w2 s g g1 g2 _ (c & -> & Hc & ->) _ [IH ->]].
  - split; [constructor|reflexivity].
  - split; [constructor; assumption|reflexivity].
Qed.

Lemma den_cls_star_intro (p : N -> bool) (w : list N) i s g :
  Forall (fun c => p c = true) w -> den (Star (Cls p)) i w s g g.
Proof.
  simpl. intros H. revert i. induction H as [|c w Hc _ IH]; intros i.
  - constructor.
  - apply (star_more _ i [c] w s g g g); [discriminate| |apply IH].
    exists c. auto.
Qed.

(** Class facts are arithmetic on code points. *)
Ltac class_facts :=
  unfold url_char, is_letter, is_digit, is_punct1, is_punct2, is_hex,
    is_quote, is_any, is_dash_eq, is_fs_char, is_char, is_space, in_range,
    ch_nl, ch_space, ch_bang, ch_dquote, ch_dollar, ch_percent, ch_amp,
    ch_squote, ch_lparen, ch_rparen, ch_star, ch_plus, ch_comma, ch_minus,
    ch_dot, ch_slash, ch_lt, ch_eq, ch_gt, ch_at, ch_backslash,
    ch_underscore in *;
  repeat match goal with
         | H : _ = true |- _ =>
             progress rewrite ?orb_true_iff, ?andb_true_iff, ?negb_true_iff,
               ?orb_false_iff, ?N.leb_le, ?N.eqb_eq, ?N.eqb_neq in H
         | H : _ = false |- _ =>
             progress rewrite ?orb_false_iff, ?andb_false_iff, ?negb_false_iff,
               ?orb_true_iff, ?N.leb_le, ?N.leb_gt, ?N.eqb_eq, ?N.eqb_neq in H
         end;
  rewrite ?orb_true_iff, ?andb_true_iff, ?negb_true_iff, ?orb_false_iff,
    ?andb_false_iff, ?N.leb_le, ?N.leb_gt, ?N.eqb_eq, ?N.eqb_neq;
  try lia.

Lemma is_hex_url_char (c : N) : is_hex c = true -> url_char c = true.
Proof. intros H. class_facts. Qed.

Lemma den_url_unit i w s g g' :
  den url_unit i w s g g' -> Forall (fun c => url_char c = true) w /\ w <> [].
Proof.
  unfold url_unit. simpl.
  intros [H|[H|[H|[H|H]]]].
  1-4: destruct H as (c & -> & Hc & _); split; [|discriminate];
       constructor; [|constructor]; unfold url_char; rewrite Hc;
       rewrite ?orb_true_r; reflexivity.
  destruct H as (w1 & w2 & g1 & -> & (c & -> & Hc & _) & H).
  destruct H as (w3 & w4 & g2 & -> & (c3 & -> & Hc3 & _) & (c4 & -> & Hc4 & _)).
  split; [|discriminate].
  repeat constructor; [|apply is_hex_url_char; assumption..].
  unfold is_char in Hc. apply N.eqb_eq in Hc. subst c. reflexivity.
Qed.

(** A match of [url_pattern]: a scheme and a non-empty run of URL characters. *)
Lemma den_url_pattern i w s g g' :
  den url_pattern i w s g g' ->
  exists scheme rest,
    w = scheme ++ rest /\ (scheme = py "http://" \/ scheme = py "https://")
    /\ Forall (fun c => url_char c = true) rest /\ rest <> [].
Proof.
  unfold url_pattern, Plus, Opt. intros H.
  destruct H as (w1 & w2 & g1 & -> & H1 & H).
  apply den_lit in H1 as [-> ->].
  destruct H as (w3 & w4 & g2 & -> & H3 & H).
  destruct H as (w5 & w6 & g3 & -> & H5 & H).
  apply den_lit in H5 as [-> ->].
  destruct H as (w7 & w8 & g4 & -> & H7 & H8).
  apply den_url_unit in H7 as [F7 N7].
  assert (F8 : Forall (fun c => url_char c = true) w8).
  { revert H8. apply star_den_Forall. intros ? ? ? ? ? HD.
    apply den_url_unit in HD as [HD _]. exact HD. }
  assert (Hrest : Forall (fun c => url_char c = true) (w7 ++ w8) /\ w7 ++ w8 <> []).
  { split; [apply Forall_app; auto|]. destruct w7; [contradiction|discriminate]. }
  destruct H3 as [(c & -> & Hc & _)|[-> _]].
  - unfold is_char in Hc. apply N.eqb_eq in Hc. subst c.
    exists (py "https://"), (w7 ++ w8). split; [reflexivity|]. tauto.
  - exists (py "http://"), (w7 ++ w8). split; [reflexivity|]. tauto.
Qed.

(** ** [rstrip] and the tuples of [extract_urls] *)

Lemma rstrip_keep (cs a b : list N) (c : N) :
  char_in c cs = false -> rstrip cs (a ++ c :: b) = a ++ c :: rstrip cs b.
Proof.
  intros Hc. induction a as [|x a IH]; simpl.
  - rewrite Hc. destruct (rstrip cs b); reflexivity.
  - rewrite IH. destruct a; reflexivity.
Qed.

Lemma rstrip_split (cs s : list N) :
  exists suf, s = rstrip cs s ++ suf /\ Forall (fun c => char_in c cs = true) suf.
Proof.
  induction s as [|c s (suf & E & F)]; simpl.
  - exists []. split; [reflexivity|constructor].
  - destruct (rstrip cs s) as [|d t] eqn:Er.
    + destruct (char_in c cs) eqn:Ec.
      * exists (c :: s). split; [reflexivity|].
        simpl in E. subst suf. constructor; assumption.
      * exists suf. simpl in *. subst suf. split; [reflexivity|assumption].
    + exists suf. simpl. rewrite E at 1. split; [reflexivity|assumption].
Qed.

Lemma rstrip_Forall (Q : N -> Prop) (cs s : list N) :
  Forall Q s -> Forall Q (rstrip cs s).
Proof.
  intros H. destruct (rstrip_split cs s) as (suf & E & _).
  rewrite E in H. apply Forall_app in H as [H _]. exact H.
Qed.

Lemma rstrip_head (cs s t : list N) (c : N) :
  rstrip cs s = c :: t -> exists t', s = c :: t'.
Proof.
  intros H. destruct (rstrip_split cs s) as (suf & E & _).
  rewrite H in E. exists (t ++ suf). exact E.
Qed.

Lemma In_tag fl repo file_path found t :
  In t (tag fl repo file_path found) ->
  exists i raw, In raw found
                /\ t = MatchTuple (rstrip (py ",") raw) fl repo file_path (S i).
Proof.
  intros H. apply list_elem_of_In, elem_of_lookup_imap_1 in H as (i & raw & -> & Hl).
  exists i, raw. split; [|reflexivity].
  apply list_elem_of_In. eapply list_elem_of_lookup_2. exact Hl.
Qed.

Lemma tag_In fl repo file_path found raw :
  In raw found ->
  exists i, In (MatchTuple (rstrip (py ",") raw) fl repo file_path (S i))
              (tag fl repo file_path found).
Proof.
  intros H. apply list_elem_of_In, list_elem_of_lookup_1 in H as [i Hl].
  exists i. apply list_elem_of_In.
  apply (elem_of_lookup_imap_2
           (fun i url => MatchTuple (rstrip (py ",") url) fl repo file_path (S i))
           found raw i Hl).
Qed.

Lemma In_clean_urls (l : list match_tuple) t :
  In t (clean_urls l) ->
  exists t0, In t0 l /\ m_url t = clean_url (m_url t0) /\ m_flag t = m_flag t0.
Proof.
  unfold clean_urls. intros H. apply in_map_iff in H as (t0 & <- & H0).
  exists t0. auto.
Qed.

(** Where a tuple of [extract_urls] comes from, by its flag. *)
Lemma In_extract_urls uni_alnum text repo file_path t :
  In t (extract_urls uni_alnum text repo file_path) ->
  match m_flag t with
  | FULL_URL =>
      exists raw, In raw (findall url_pattern text)
                  /\ m_url t = rstrip (py ",") raw
  | PARTIAL_URL =>
      exists raw, In raw (findall (partial_url_pattern uni_alnum) text)
                  /\ m_url t = clean_url (rstrip (py ",") raw)
  | FORWARD_SLASH =>
      exists raw, In raw (findall forward_slash_pattern text)
                  /\ m_url t = clean_url (rstrip (py ",") raw)
  end.
Proof.
  unfold extract_urls, full_urls, partial_urls, forward_slash_strings.
  intros H. apply in_app_or in H as [H|H]; [|apply in_app_or in H as [H|H]].
  - apply In_tag in H as (i & raw & Hr & ->). simpl. eauto.
  - apply In_clean_urls in H as (t0 & H0 & Eu & Ef).
    apply In_tag in H0 as (i & raw & Hr & ->). simpl in *.
    rewrite Ef, Eu. eauto.
  - apply In_clean_urls in H as (t0 & H0 & Eu & Ef).
    apply In_tag in H0 as (i & raw & Hr & ->). simpl in *.
    rewrite Ef, Eu. eauto.
Qed.

Lemma extract_urls_In uni_alnum text repo file_path raw :
  (In raw (findall url_pattern text) ->
   exists t, In t (extract_urls uni_alnum text repo file_path)
             /\ m_flag t = FULL_URL /\ m_url t = rstrip (py ",") raw)
  /\ (In raw (findall (partial_url_pattern uni_alnum) text) ->
      exists t, In t (extract_urls uni_alnum text repo file_path)
                /\ m_flag t = PARTIAL_URL
                /\ m_url t = clean_url (rstrip (py ",") raw))
  /\ (In raw (findall forward_slash_pattern text) ->
      exists t, In t (extract_urls uni_alnum text repo file_path)
                /\ m_flag t = FORWARD_SLASH
                /\ m_url t = clean_url (rstrip (py ",") raw)).
Proof.
  unfold extract_urls, full_urls, partial_urls, forward_slash_strings.
  repeat split.
  - intros H. destruct (tag_In FULL_URL repo file_path _ _ H) as [i Hi].
    eexists. split; [apply in_or_app; left; exact Hi|]. split; reflexivity.
  - intros H. destruct (tag_In PARTIAL_URL repo file_path _ _ H) as [i Hi].
    eexists. split.
    + apply in_or_app; right. apply in_or_app; left.
      unfold clean_urls. apply in_map_iff. eexists. split; [reflexivity|exact Hi].
    + split; reflexivity.
  - intros H. destruct (tag_In FORWARD_SLASH repo file_path _ _ H) as [i Hi].
    eexists. split.
    + apply in_or_app; right. apply in_or_app; right.
      unfold clean_urls. apply in_map_iff. eexists. split; [reflexivity|exact Hi].
    + split; reflexivity.
Qed.

Lemma patterns_stars_consume uni_alnum :
  stars_consume url_pattern = true
  /\ stars_consume (partial_url_pattern uni_alnum) = true
  /\ stars_consume forward_slash_pattern = true.
Proof. repeat split; reflexivity. Qed.

Lemma url_pattern_plain : plain_lookaheads url_pattern = true.
Proof. reflexivity. Qed.

Lemma forward_slash_pattern_plain : plain_lookaheads forward_slash_pattern = true.
Proof. reflexivity. Qed.

Lemma partial_url_pattern_plain uni_alnum :
  plain_lookaheads (partial_url_pattern uni_alnum) = true.
Proof. reflexivity. Qed.

(** C2.  Whatever the text, every tuple that [extract_urls] flags FULL_URL
    holds a string that starts with [http://] or [https://] and goes on with
    characters of the class of the repeated part of [url_pattern] only. *)
Theorem C2_full_url_scheme_and_class uni_alnum (text repo file_path : list N)
    (t : match_tuple) :
  In t (extract_urls uni_alnum text repo file_path) ->
  m_flag t = FULL_URL ->
  full_url_shape (m_url t).
Proof.
  intros Hin Hfl. apply In_extract_urls in Hin. rewrite Hfl in Hin.
  destruct Hin as (raw & Hraw & ->).
  apply (findall_sound _ _ _ url_pattern_plain) in Hraw
    as (pre & w & s' & g & _ & HD & ->).
  simpl. apply den_url_pattern in HD as (scheme & rest & -> & Hs & F & _).
  exists scheme, (rstrip (py ",") rest).
  split; [|split; [exact Hs|apply rstrip_Forall; exact F]].
  destruct Hs as [-> | ->].
  - apply (rstrip_keep (py ",") (py "http:/") rest ch_slash). reflexivity.
  - apply (rstrip_keep (py ",") (py "https:/") rest ch_slash). reflexivity.
Qed.

(** ** The frame of the path patterns *)

Lemma den_line_lookahead (r : re) i (s : list N) g :
  (exists w0 s0 g0, s = w0 ++ s0 /\ den (Seq (Star (Cls is_any)) r) i w0 s0 g g0)
  <-> exists a w1 s0 g0,
        s = a ++ w1 ++ s0 /\ Forall (fun c => is_any c = true) a
        /\ den r (i + length a)%nat w1 s0 g g0.
Proof.
  split.
  - intros (w0 & s0 & g0 & -> & (w1 & w2 & g1 & -> & H1 & H2)).
    apply den_cls_star in H1 as [F ->].
    exists w1, w2, s0, g0. rewrite <- app_assoc. auto.
  - intros (a & w1 & s0 & g0 & -> & F & H).
    exists (a ++ w1), s0, g0. rewrite <- app_assoc. split; [reflexivity|].
    exists a, w1, g. split; [reflexivity|]. split; [|exact H].
    apply den_cls_star_intro. exact F.
Qed.

Lemma den_not_on_line (l : list N) i w s g g' :
  den (NotAhead (Seq (Star (Cls is_any)) (lit l))) i w s g g'
  <-> w = [] /\ g' = g /\ ~ on_line l s.
Proof.
  change (den (NotAhead ?r) i w s g g')
    with (w = [] /\ g' = g /\ ~ (exists w0 s0 g0, s = w0 ++ s0 /\ den r i w0 s0 g g0)).
  rewrite den_line_lookahead. unfold on_line.
  split; intros (-> & -> & Hno); (split; [reflexivity|split; [reflexivity|]]).
  - intros (a & b & -> & F). apply Hno. exists a, l, b, g.
    split; [reflexivity|]. split; [exact F|apply den_lit_intro].
  - intros (a & w1 & s0 & g0 & -> & F & H). apply den_lit in H as [-> _].
    apply Hno. exists a, s0. auto.
Qed.

Lemma den_no_comment_opener i w s g g' :
  den no_comment_opener i w s g g'
  <-> w = [] /\ g' = g /\ ~ on_line (py "/*-") s /\ ~ on_line (py "/*=") s.
Proof.
  unfold no_comment_opener.
  change (den (NotAhead ?r) i w s g g')
    with (w = [] /\ g' = g /\ ~ (exists w0 s0 g0, s = w0 ++ s0 /\ den r i w0 s0 g g0)).
  rewrite den_line_lookahead. unfold on_line.
  split.
  - intros (-> & -> & Hno). repeat split.
    + intros (a & b & -> & F). apply Hno.
      exists a, (py "/*-"), b, g. split; [reflexivity|]. split; [exact F|].
      exists (py "/*"), [ch_minus], g. split; [reflexivity|].
      split; [apply den_lit_intro|]. exists ch_minus. auto.
    + intros (a & b & -> & F). apply Hno.
      exists a, (py "/*="), b, g. split; [reflexivity|]. split; [exact F|].
      exists (py "/*"), [ch_eq], g. split; [reflexivity|].
      split; [apply den_lit_intro|]. exists ch_eq. auto.
  - intros (-> & -> & Hm & He). repeat split.
    intros (a & w1 & s0 & g0 & -> & F & (w2 & w3 & g1 & -> & H2 & (c & -> & Hc & _))).
    apply den_lit in H2 as [-> _].
    unfold is_dash_eq in Hc. apply orb_true_iff in Hc as [Hc|Hc];
      apply N.eqb_eq in Hc; subst c.
    + apply Hm. exists a, s0. auto.
    + apply He. exists a, s0. auto.
Qed.

Lemma den_left_boundary i w s g g' :
  den left_boundary i w s g g' <-> left_bounded i w /\ g' = g.
Proof.
  unfold left_boundary, left_bounded, is_boundary. simpl. split.
  - intros [(-> & -> & ->)|[(c & -> & Hc & ->)|(c & -> & Hc & ->)]].
    + auto.
    + split; [|reflexivity]. right. exists c. rewrite Hc. auto.
    + split; [|reflexivity]. right. exists c. rewrite Hc, orb_true_r. auto.
  - intros [[(-> & ->)|(c & -> & Hc)] ->].
    + auto.
    + right. apply orb_true_iff in Hc as [Hc|Hc]; [left|right]; exists c; auto.
Qed.

Lemma den_right_boundary i w s g g' :
  den right_boundary i w s g g' <-> w = [] /\ g' = g /\ right_bounded s.
Proof.
  unfold right_boundary, right_bounded, is_boundary. simpl. split.
  - intros (-> & w0 & s0 & E & H).
    split; [reflexivity|].
    destruct H as [(c & -> & Hc & ->)|[(-> & Hs & ->)|(c & -> & Hc & ->)]].
    + split; [reflexivity|]. right. exists c, s0. rewrite Hc. auto.
    + split; [reflexivity|]. simpl in E. subst s0.
      destruct Hs as [->| ->]; [left; reflexivity|].
      right. exists ch_nl, []. auto.
    + split; [reflexivity|]. right. exists c, s0. rewrite Hc, orb_true_r. auto.
  - intros (-> & -> & [->|(c & s0 & -> & Hc)]).
    + split; [reflexivity|]. exists [], []. split; [reflexivity|].
      right. left. auto.
    + split; [reflexivity|]. exists [c], s0. split; [reflexivity|].
      apply orb_true_iff in Hc as [Hc|Hc].
      * left. exists c. auto.
      * right. right. exists c. auto.
Qed.

Lemma den_seq_intro a b i w1 w2 s g g1 g' :
  den a i w1 (w2 ++ s) g g1 -> den b (i + length w1)%nat w2 s g1 g' ->
  den (Seq a b) i (w1 ++ w2) s g g'.
Proof. intros H1 H2. exists w1, w2, g1. auto. Qed.

Lemma den_seq_zero a b i w s g g' :
  den a i [] (w ++ s) g g -> den b i w s g g' -> den (Seq a b) i w s g g'.
Proof.
  intros H1 H2. exists [], w, g. change (length (@nil N)) with O.
  rewrite Nat.add_0_r. auto.
Qed.

Lemma den_seq_zero_r a b i w s g g1 g' :
  den a i w s g g1 -> den b (i + length w)%nat [] s g1 g' ->
  den (Seq a b) i w s g g'.
Proof. intros H1 H2. exists w, [], g1. rewrite app_nil_r. auto. Qed.

(** A match of a framed group, in words. *)
Lemma den_framed (G : re) i w s g g' :
  den (framed G) i w s g g'
  <-> exists bnd tok,
        w = bnd ++ tok /\ left_bounded i bnd /\ line_clean (tok ++ s)
        /\ den G (i + length bnd)%nat tok s g g'
        /\ right_bounded s /\ ~ on_line (py ",") s.
Proof.
  unfold framed, no_double_slash, no_double_star, no_comma, line_clean.
  split.
  - intros (w1 & w2 & g1 & -> & H1 & H).
    apply den_left_boundary in H1 as [Hl ->].
    destruct H as (w3 & w4 & g2 & -> & H3 & H).
    apply den_not_on_line in H3 as (-> & -> & Hds).
    destruct H as (w5 & w6 & g3 & -> & H5 & H).
    apply den_not_on_line in H5 as (-> & -> & Hst).
    destruct H as (w7 & w8 & g4 & -> & H7 & H).
    apply den_no_comment_opener in H7 as (-> & -> & Hm & He).
    destruct H as (tok & w9 & g5 & -> & HG & H).
    destruct H as (w10 & w11 & g6 & -> & H10 & H11).
    apply den_right_boundary in H10 as (-> & -> & Hr).
    apply den_not_on_line in H11 as (-> & -> & Hc).
    simpl in *. rewrite !Nat.add_0_r, !app_nil_r in *.
    exists w1, tok. auto 10.
  - intros (bnd & tok & -> & Hl & (Hds & Hst & Hm & He) & HG & Hr & Hc).
    apply den_seq_intro with g; [apply den_left_boundary; auto|].
    apply den_seq_zero; [apply den_not_on_line; auto|].
    apply den_seq_zero; [apply den_not_on_line; auto|].
    apply den_seq_zero; [apply den_no_comment_opener; auto|].
    apply den_seq_zero_r with g'; [exact HG|].
    apply den_seq_zero; [apply den_right_boundary; auto|].
    apply den_not_on_line. auto.
Qed.

(** ** The groups of the path patterns *)

Lemma den_lit_star (l : list N) (p : N -> bool) i w s g g' :
  den (Seq (lit l) (Star (Cls p))) i w s g g'
  <-> exists t, w = l ++ t /\ Forall (fun c => p c = true) t /\ g' = g.
Proof.
  split.
  - intros (w1 & w2 & g1 & -> & H1 & H2).
    apply den_lit in H1 as [-> ->]. apply den_cls_star in H2 as [F ->].
    exists w2. auto.
  - intros (t & -> & F & ->).
    apply den_seq_intro with g; [apply den_lit_intro|].
    apply den_cls_star_intro. exact F.
Qed.

Lemma forward_slash_pattern_framed : forward_slash_pattern = framed forward_group.
Proof. reflexivity. Qed.

Lemma den_forward_group i tok s g g' :
  den forward_group i tok s g g'
  <-> (tok = [] /\ g' = g)
      \/ exists t, tok = ch_slash :: t
                   /\ Forall (fun c => is_fs_char c = true) t /\ g' = Some tok.
Proof.
  unfold forward_group, Opt.
  change (den (Alt (Grp ?a) Eps) i tok s g g')
    with (((exists g0, den a i tok s g g0) /\ g' = Some tok) \/ (tok = [] /\ g' = g)).
  split.
  - intros [[[g0 H] ->]|H]; [right|left; exact H].
    apply den_lit_star in H as (t & -> & F & _). exists t. auto.
  - intros [H|(t & -> & F & ->)]; [right; exact H|left].
    split; [|reflexivity]. exists g. apply den_lit_star. exists t. auto.
Qed.

Section PartialGroup.

Variable uni_alnum : N -> bool.

Lemma partial_url_pattern_framed :
  partial_url_pattern uni_alnum = framed (partial_group uni_alnum).
Proof. reflexivity. Qed.

Lemma den_partial_group i tok s g g' :
  den (partial_group uni_alnum) i tok s g g'
  <-> g' = Some tok
      /\ exists pfx t,
           tok = pfx ++ t
           /\ (pfx = py "./" \/ pfx = py "../" \/ pfx = py "/")
           /\ Forall (fun c => is_path_char uni_alnum c = true) t.
Proof.
  unfold partial_group.
  change (den (Grp (Alt ?a (Alt ?b ?c))) i tok s g g')
    with ((exists g0, den a i tok s g g0 \/ den b i tok s g g0 \/ den c i tok s g g0)
          /\ g' = Some tok).
  split.
  - intros [[g0 H] ->]. split; [reflexivity|].
    destruct H as [H|[H|H]]; apply den_lit_star in H as (t & -> & F & _);
      eexists _, t; (split; [reflexivity|]); auto.
  - intros (-> & pfx & t & -> & Hp & F). split; [|reflexivity].
    exists g. destruct Hp as [->|[->| ->]];
      [left|right; left|right; right]; apply den_lit_star; exists t; auto.
Qed.

End PartialGroup.

(** A token of a clean line does not start with two slashes. *)
Lemma line_clean_single_slash (t s : list N) :
  line_clean ((ch_slash :: t) ++ s) -> startswith (py "/") t = false.
Proof.
  intros (Hds & _). destruct (startswith (py "/") t) eqn:E; [|reflexivity].
  apply startswith_inv in E as [t' ->]. exfalso. apply Hds.
  exists [], (t' ++ s). split; [reflexivity|constructor].
Qed.

(** The raw items of the two path patterns. *)
Lemma forward_slash_raw (text raw : list N) :
  In raw (findall forward_slash_pattern text) ->
  raw = [] \/ exists t, raw = ch_slash :: t /\ startswith (py "/") t = false.
Proof.
  intros H.
  apply (findall_sound _ _ _ forward_slash_pattern_plain) in H
    as (pre & w & s' & g & _ & HD & ->).
  rewrite forward_slash_pattern_framed in HD.
  apply den_framed in HD as (bnd & tok & _ & _ & Hc & HG & _).
  change (has_group (framed forward_group)) with true. cbv iota.
  apply den_forward_group in HG as [[_ ->]|(t & -> & _ & ->)].
  - left. reflexivity.
  - right. exists t. split; [reflexivity|].
    eapply line_clean_single_slash. exact Hc.
Qed.

Lemma partial_url_raw uni_alnum (text raw : list N) :
  In raw (findall (partial_url_pattern uni_alnum) text) ->
  (exists t, raw = py "./" ++ t) \/ (exists t, raw = py "../" ++ t)
  \/ exists t, raw = ch_slash :: t /\ startswith (py "/") t = false.
Proof.
  intros H.
  apply (findall_sound _ _ _ (partial_url_pattern_plain uni_alnum)) in H
    as (pre & w & s' & g & _ & HD & ->).
  rewrite partial_url_pattern_framed in HD.
  apply den_framed in HD as (bnd & tok & _ & _ & Hc & HG & _).
  change (has_group (framed (partial_group uni_alnum))) with true. cbv iota.
  apply den_partial_group in HG as (-> & pfx & t & -> & Hp & _).
  simpl. destruct Hp as [->|[->| ->]].
  - left. exists t. reflexivity.
  - right. left. exists t. reflexivity.
  - right. right. exists t. split; [reflexivity|].
    eapply line_clean_single_slash. exact Hc.
Qed.

(** ** Normalised matches *)

Lemma single_slash_dot (u : list N) :
  has_dot_prefix u = true -> single_slash (clean_url u).
Proof.
  intros H. rewrite clean_url_dot by exact H.
  exists (lstrip (py "./") u). split; [reflexivity|].
  pose proof (lstrip_head (py "./") u) as Hh.
  destruct (lstrip (py "./") u) as [|c t]; [reflexivity|].
  rewrite char_in_dot_slash in Hh. unfold is_dot_or_slash in Hh.
  apply orb_false_iff in Hh as [_ Hs].
  change (py "/") with [ch_slash]. rewrite startswith_one, N.eqb_sym. exact Hs.
Qed.

Lemma single_slash_rstrip (t : list N) :
  startswith (py "/") t = false ->
  single_slash (clean_url (rstrip (py ",") (ch_slash :: t))).
Proof.
  intros H.
  change (ch_slash :: t) with ([] ++ ch_slash :: t).
  rewrite (rstrip_keep (py ",") [] t ch_slash) by reflexivity.
  change ([] ++ ch_slash :: rstrip (py ",") t) with (ch_slash :: rstrip (py ",") t).
  rewrite clean_url_slash. exists (rstrip (py ",") t). split; [reflexivity|].
  destruct (rstrip (py ",") t) as [|c t'] eqn:E; [reflexivity|].
  apply rstrip_head in E as [t'' ->]. exact H.
Qed.

(** Whatever the text, a string that [extract_urls] flags PARTIAL_URL or
    FORWARD_SLASH starts with a slash and goes on with another character. *)
Lemma normalised_single_slash uni_alnum
    (text repo file_path : list N) (t : match_tuple) :
  In t (extract_urls uni_alnum text repo file_path) ->
  m_flag t = PARTIAL_URL \/ m_flag t = FORWARD_SLASH ->
  single_slash (m_url t).
Proof.
  intros Hin Hfl.
  apply In_extract_urls in Hin.
  destruct Hfl as [Hfl|Hfl]; rewrite Hfl in Hin; destruct Hin as (raw & Hraw & ->).
  - apply partial_url_raw in Hraw as [[r ->]|[[r ->]|(r & -> & Hr)]].
    + apply single_slash_dot.
      change (py "./" ++ r) with (py "." ++ ch_slash :: r).
      rewrite (rstrip_keep (py ",") (py ".") r ch_slash) by reflexivity.
      reflexivity.
    + apply single_slash_dot.
      change (py "../" ++ r) with (py ".." ++ ch_slash :: r).
      rewrite (rstrip_keep (py ",") (py "..") r ch_slash) by reflexivity.
      reflexivity.
    + apply single_slash_rstrip, Hr.
  - apply forward_slash_raw in Hraw as [->|(r & -> & Hr)].
    + exists []. split; reflexivity.
    + apply single_slash_rstrip, Hr.
Qed.

(** ** The aggregator *)

Lemma has_forbidden_false (forbidden_characters url : list N) :
  has_forbidden forbidden_characters url = false
  <-> forall c, In c forbidden_characters -> ~ In c url.
Proof.
  unfold has_forbidden, char_in. split.
  - intros H c Hc Hu.
    assert (existsb (fun c0 => existsb (N.eqb c0) url) forbidden_characters = true);
      [|congruence].
    apply existsb_exists. exists c. split; [exact Hc|].
    apply existsb_exists. exists c. split; [exact Hu|apply N.eqb_refl].
  - intros H. destruct (existsb _ forbidden_characters) eqn:E; [|reflexivity].
    apply existsb_exists in E as (c & Hc & E).
    apply existsb_exists in E as (d & Hd & E).
    apply N.eqb_eq in E. subst d. exfalso. exact (H c Hc Hd).
Qed.

Lemma rs_get_add (rs : result_set) (fl fl' : flag) (u v : list N) :
  v ∈ rs_get (rs_add rs fl u) fl' <-> v ∈ rs_get rs fl' \/ (fl = fl' /\ v = u).
Proof.
  destruct fl, fl'; simpl; rewrite ?elem_of_union, ?elem_of_singleton;
    intuition congruence.
Qed.

Lemma result_set_ext (a b : result_set) :
  (forall fl u, u ∈ rs_get a fl <-> u ∈ rs_get b fl) -> a = b.
Proof.
  destruct a as [a1 a2 a3], b as [b1 b2 b3]. intros H.
  f_equal; apply set_eq; intros u.
  - exact (H FULL_URL u).
  - exact (H PARTIAL_URL u).
  - exact (H FORWARD_SLASH u).
Qed.

(** What the loop over the tuples of a file leaves in the sets: what was
    there, and the strings of the tuples that pass the filter. *)
Lemma merge_urls_spec (forbidden_characters : list N) (urls : list match_tuple)
    (all_urls : result_set) (fl : flag) (u : list N) :
  u ∈ rs_get (merge_urls forbidden_characters all_urls urls) fl
  <-> u ∈ rs_get all_urls fl
      \/ exists t, In t urls /\ m_flag t = fl /\ m_url t = u
                   /\ has_forbidden forbidden_characters u = false.
Proof.
  unfold merge_urls. revert all_urls.
  induction urls as [|t urls IH]; intros all_urls; simpl.
  - split; [auto|]. intros [H|(t & [] & _)]. exact H.
  - rewrite IH. destruct (has_forbidden forbidden_characters (m_url t)) eqn:E.
    + split.
      * intros [H|(t' & Ht & H)]; [auto|]. right. exists t'. auto.
      * intros [H|(t' & [<-|Ht] & Hf & Hu & Hn)]; [auto| |].
        -- subst u. congruence.
        -- right. exists t'. auto.
    + rewrite rs_get_add. split.
      * intros [[H|[<- ->]]|(t' & Ht & H)]; [auto| |].
        -- right. exists t. auto.
        -- right. exists t'. auto.
      * intros [H|(t' & [<-|Ht] & Hf & Hu & Hn)]; [auto| |].
        -- left. right. auto.
        -- right. exists t'. auto.
Qed.

Lemma filtered_empty forbidden_characters : filtered forbidden_characters all_urls_empty.
Proof. intros [] u H; simpl in H; apply elem_of_empty in H; contradiction. Qed.

Lemma filtered_merge forbidden_characters all_urls urls :
  filtered forbidden_characters all_urls ->
  filtered forbidden_characters (merge_urls forbidden_characters all_urls urls).
Proof.
  intros H fl u Hu. apply merge_urls_spec in Hu as [Hu|(t & _ & _ & _ & Hn)].
  - exact (H fl u Hu).
  - exact Hn.
Qed.

Lemma fold_left_invariant {A B : Type} (P : A -> Prop) (f : A -> B -> A)
    (l : list B) (a : A) :
  (forall a' b, P a' -> P (f a' b)) -> P a -> P (fold_left f l a).
Proof.
  intros Hf. revert a. induction l as [|b l IH]; intros a Ha; simpl; [exact Ha|].
  apply IH, Hf, Ha.
Qed.

Section ScanProperties.

Variable uni_alnum : N -> bool.
Variable os_walk : list N -> list (list N * list (list N)).
Variable is_text_file : list N -> bool.
Variable read_file : list N -> option (list N).

Lemma filtered_scan_file forbidden_characters all_urls root file_name :
  filtered forbidden_characters all_urls ->
  filtered forbidden_characters
    (scan_file uni_alnum is_text_file read_file forbidden_characters all_urls
       root file_name).
Proof.
  intros H. unfold scan_file.
  destruct (negb (is_text_file (path_join root file_name))); [exact H|].
  destruct (read_file (path_join root file_name)); [|exact H].
  apply filtered_merge, H.
Qed.

Lemma filtered_search directory forbidden_characters :
  filtered forbidden_characters
    (search_directory_for_urls uni_alnum os_walk is_text_file read_file
       directory forbidden_characters).
Proof.
  unfold search_directory_for_urls.
  apply fold_left_invariant; [|apply filtered_empty].
  intros acc entry Hacc.
  apply fold_left_invariant; [|exact Hacc].
  intros acc' file_name Hacc'. apply filtered_scan_file, Hacc'.
Qed.

End ScanProperties.

(** Merging the same tuples a second time changes nothing. *)
Lemma merge_urls_twice forbidden_characters all_urls urls :
  merge_urls forbidden_characters
    (merge_urls forbidden_characters all_urls urls) urls
  = merge_urls forbidden_characters all_urls urls.
Proof.
  apply result_set_ext. intros fl u. rewrite !merge_urls_spec. tauto.
Qed.

(** C1.  The sets of a scan hold no string twice and no string with a
    forbidden character, and merging the tuples of the same file content a
    second time leaves the result set as it was after the first time. *)
Theorem C1_result_set_unique_and_filtered uni_alnum
    (os_walk : list N -> list (list N * list (list N)))
    (is_text_file : list N -> bool) (read_file : list N -> option (list N))
    (directory forbidden_characters : list N) :
  (forall fl,
     NoDup (elements (rs_get (search_directory_for_urls uni_alnum os_walk
                                is_text_file read_file directory
                                forbidden_characters) fl)))
  /\ (forall fl u c,
        u ∈ rs_get (search_directory_for_urls uni_alnum os_walk is_text_file
                      read_file directory forbidden_characters) fl ->
        In c forbidden_characters -> ~ In c u)
  /\ (forall all_urls text repo file_path,
        merge_urls forbidden_characters
          (merge_urls forbidden_characters all_urls
             (extract_urls uni_alnum text repo file_path))
          (extract_urls uni_alnum text repo file_path)
        = merge_urls forbidden_characters all_urls
            (extract_urls uni_alnum text repo file_path)).
Proof.
  split; [|split].
  - intros fl. apply NoDup_elements.
  - intros fl u c Hu.
    apply (filtered_search uni_alnum os_walk is_text_file read_file) in Hu.
    apply has_forbidden_false. exact Hu.
  - intros. apply merge_urls_twice.
Qed.

(** ** The normaliser strips characters, not segments *)

Lemma strip_round_split (u : list N) :
  exists pre, u = pre ++ strip_round u
              /\ Forall (fun c => is_dot_or_slash c = true) pre.
Proof.
  rewrite strip_round_lstrip.
  destruct (lstrip_split (py "./") u) as (pre & E & F).
  exists pre. split; [exact E|].
  eapply Forall_impl; [exact F|]. intros c Hc. cbv beta in Hc.
  rewrite char_in_dot_slash in Hc. exact Hc.
Qed.

Lemma clean_url_round (u : list N) :
  has_dot_prefix u = true -> clean_url u = ch_slash :: strip_round u.
Proof. intros H. rewrite strip_round_lstrip. apply clean_url_dot, H. Qed.

(** C4 (amended).  For a string that starts with [./] or [../] the
    normaliser removes every leading dot and slash, character by character
    and not segment by segment, and puts one slash in front of what is left. *)
Theorem C4_strips_characters_after_dot_prefix (u : list N) :
  has_dot_prefix u = true ->
  exists pre rest,
    u = pre ++ rest
    /\ Forall (fun c => is_dot_or_slash c = true) pre
    /\ no_leading_dot_or_slash rest
    /\ clean_url u = ch_slash :: rest.
Proof.
  intros H. destruct (strip_round_split u) as (pre & E & F).
  exists pre, (strip_round u).
  split; [exact E|]. split; [exact F|].
  split; [apply strip_round_head|apply clean_url_round, H].
Qed.

(** At [./...//x] all of [./...//] goes and [/x] is the result. *)
Lemma C4_witness :
  exists pre rest,
    py "./...//x" = pre ++ rest
    /\ Forall (fun c => is_dot_or_slash c = true) pre
    /\ no_leading_dot_or_slash rest
    /\ clean_url (py "./...//x") = ch_slash :: rest.
Proof. apply (C4_strips_characters_after_dot_prefix (py "./...//x")). reflexivity. Defined.

(** C4 as stated fails at its own example: [....//x] starts with neither
    [./] nor [../], the loop is not entered, and the string only gets a slash
    in front. *)
Lemma C4_counterexample :
  has_dot_prefix (py "....//x") = false
  /\ clean_url (py "....//x") = py "/....//x"
  /\ clean_url (py "....//x") <> py "/x".
Proof. split; [reflexivity|]. split; [reflexivity|discriminate]. Qed.

(** C10.  When the raw match starts with [./] or [../], one round of the
    loop removes all leading dots and slashes, the loop stops after it, and
    the result is a slash and what is left. *)
Theorem C10_one_round_strips_all_leading_dots_and_slashes (u : list N) :
  has_dot_prefix u = true ->
  (exists pre, u = pre ++ strip_round u
               /\ Forall (fun c => is_dot_or_slash c = true) pre)
  /\ no_leading_dot_or_slash (strip_round u)
  /\ has_dot_prefix (strip_round u) = false
  /\ strip_loop (length u) u = strip_round u
  /\ clean_url u = ch_slash :: strip_round u.
Proof.
  intros H. split; [apply strip_round_split|].
  split; [apply strip_round_head|]. split; [apply strip_round_exit|].
  split; [|apply clean_url_round, H].
  rewrite strip_loop_unfold by lia. rewrite H. reflexivity.
Qed.

(** The dot-file [./.config/x] loses the dot of its name. *)
Lemma C10_witness : clean_url (py "./.config/x") = py "/config/x".
Proof.
  exact (proj2 (proj2 (proj2 (proj2
    (C10_one_round_strips_all_leading_dots_and_slashes (py "./.config/x") eq_refl))))).
Defined.

(** C8.  A string that starts with exactly one slash, and so with no dot, is
    returned as it is. *)
Theorem C8_normalised_is_fixed (u : list N) :
  single_slash u -> startswith (py ".") u = false -> clean_url u = u.
Proof. intros (rest & -> & _) _. apply clean_url_slash. Qed.

Lemma C8_witness : clean_url (py "/utils/helper") = py "/utils/helper".
Proof.
  apply (C8_normalised_is_fixed (py "/utils/helper")).
  - exists (py "utils/helper"). split; reflexivity.
  - reflexivity.
Defined.

(** The normaliser is idempotent. *)
Lemma clean_url_idempotent (u : list N) : clean_url (clean_url u) = clean_url u.
Proof. destruct (clean_url_starts u) as [t ->]. apply clean_url_slash. Qed.

(** ** The forbidden characters *)

(** C6.  The list of [process_repo] is the base set and [@], the list of
    [process_dir] is the base set, which has no [@]: the two differ in [@]
    and in nothing else. *)
Theorem C6_forbidden_sets :
  (forall c, In c repo_forbidden_characters <-> In c (spec_base_forbidden ++ [ch_at]))
  /\ (forall c, In c dir_forbidden_characters <-> In c spec_base_forbidden)
  /\ ~ In ch_at spec_base_forbidden
  /\ repo_forbidden_characters = dir_forbidden_characters ++ [ch_at]
  /\ NoDup repo_forbidden_characters.
Proof.
  split; [|split; [|split; [|split]]].
  - intros c. unfold repo_forbidden_characters, spec_base_forbidden. simpl. tauto.
  - intros c. unfold dir_forbidden_characters, spec_base_forbidden. simpl. tauto.
  - unfold spec_base_forbidden. simpl. intros H.
    repeat (destruct H as [H|H]; [discriminate H|]). exact H.
  - reflexivity.
  - unfold repo_forbidden_characters.
    repeat (apply NoDup_cons; split;
            [rewrite list_elem_of_In; simpl; intros H;
             repeat (destruct H as [H|H]; [discriminate H|]); exact H|]).
    apply NoDup_nil. exact I.
Qed.

(** ** The reports *)

Lemma write_url_set_spec (fl : flag) (url_set : gset (list N)) (f : list N) :
  write_url_set fl url_set f = f ++ concat (map (url_line fl) (elements url_set)).
Proof.
  unfold write_url_set. generalize (elements url_set) as l. intros l. revert f.
  induction l as [|u l IH]; intros f; simpl.
  - symmetry. apply app_nil_r.
  - rewrite IH, <- app_assoc. reflexivity.
Qed.

Lemma dir_report_layout (urls : result_set) (old : list N) (append : bool) :
  dir_report urls old append
  = open_output old append
    ++ flag_lines FULL_URL urls
    ++ flag_lines PARTIAL_URL urls
    ++ flag_lines FORWARD_SLASH urls.
Proof.
  unfold dir_report, flag_lines, rs_items. cbn [fold_left fst snd rs_get].
  rewrite !write_url_set_spec, <- !app_assoc. reflexivity.
Qed.

Lemma repo_report_layout (urls : result_set) (old : list N) (append : bool) :
  repo_report urls old append
  = open_output old append
    ++ (py "FULL_URLS:" ++ [ch_nl]) ++ flag_lines FULL_URL urls
    ++ ([ch_nl] ++ py "PARTIAL_URLS:" ++ [ch_nl]) ++ flag_lines PARTIAL_URL urls
    ++ ([ch_nl] ++ py "FORWARD_SLASHES:" ++ [ch_nl]) ++ flag_lines FORWARD_SLASH urls.
Proof.
  unfold repo_report, flag_lines, rs_items.
  cbn [fold_left fst snd repo_heading rs_get].
  rewrite !write_url_set_spec, <- !app_assoc. reflexivity.
Qed.

(** C7 (amended).  Both reports hold one line [<flag>: <string>] for each
    string of the result set, flag by flag in the order FULL_URL,
    PARTIAL_URL, FORWARD_SLASH, after the old content when appending.  The
    report of [process_dir] holds nothing else; the report of [process_repo]
    has a heading before the lines of each flag. *)
Theorem C7_report_layout (urls : result_set) (old : list N) (append : bool) :
  dir_report urls old append
  = open_output old append
    ++ flag_lines FULL_URL urls
    ++ flag_lines PARTIAL_URL urls
    ++ flag_lines FORWARD_SLASH urls
  /\ repo_report urls old append
     = open_output old append
       ++ (py "FULL_URLS:" ++ [ch_nl]) ++ flag_lines FULL_URL urls
       ++ ([ch_nl] ++ py "PARTIAL_URLS:" ++ [ch_nl]) ++ flag_lines PARTIAL_URL urls
       ++ ([ch_nl] ++ py "FORWARD_SLASHES:" ++ [ch_nl]) ++ flag_lines FORWARD_SLASH urls.
Proof. split; [apply dir_report_layout|apply repo_report_layout]. Qed.

(** C7 as stated fails for the directory scan: with one string under each
    flag its report is three lines and no heading, while the report of the
    repository scan has the three headings. *)
Lemma C7_counterexample :
  dir_report (ResultSet {[py "https://a.com/x"]} {[py "/y"]} {[py "/z"]}) [] false
  = py "FULL_URL: https://a.com/x" ++ [ch_nl]
    ++ py "PARTIAL_URL: /y" ++ [ch_nl]
    ++ py "FORWARD_SLASH: /z" ++ [ch_nl]
  /\ repo_report (ResultSet {[py "https://a.com/x"]} {[py "/y"]} {[py "/z"]}) [] false
     = py "FULL_URLS:" ++ [ch_nl]
       ++ py "FULL_URL: https://a.com/x" ++ [ch_nl]
       ++ [ch_nl] ++ py "PARTIAL_URLS:" ++ [ch_nl]
       ++ py "PARTIAL_URL: /y" ++ [ch_nl]
       ++ [ch_nl] ++ py "FORWARD_SLASHES:" ++ [ch_nl]
       ++ py "FORWARD_SLASH: /z" ++ [ch_nl].
Proof.
  rewrite dir_report_layout, repo_report_layout.
  unfold flag_lines, rs_get, rs_full, rs_partial, rs_forward.
  rewrite !elements_singleton. split; reflexivity.
Qed.

(** ** Empty matches of the FORWARD_SLASH pattern *)

Lemma merge_urls_adds forbidden_characters all_urls urls (t : match_tuple) :
  In t urls -> has_forbidden forbidden_characters (m_url t) = false ->
  m_url t ∈ rs_get (merge_urls forbidden_characters all_urls urls) (m_flag t).
Proof.
  intros Ht Hn. apply merge_urls_spec. right. exists t. auto.
Qed.

(** A text in which the group of the FORWARD_SLASH pattern never takes part
    still puts the string [/] into the set. *)
Lemma empty_match_adds_slash uni_alnum forbidden_characters all_urls
    (text repo file_path : list N) :
  In [] (findall forward_slash_pattern text) ->
  has_forbidden forbidden_characters (py "/") = false ->
  py "/" ∈ rs_forward (merge_urls forbidden_characters all_urls
                         (extract_urls uni_alnum text repo file_path)).
Proof.
  intros Hin Hn.
  destruct (extract_urls_In uni_alnum text repo file_path []) as (_ & _ & H).
  destruct (H Hin) as (t & Ht & Hfl & Hu).
  change (rs_forward ?rs) with (rs_get rs FORWARD_SLASH).
  rewrite <- Hfl. change (py "/") with (clean_url (rstrip (py ",") [])).
  rewrite <- Hu. apply merge_urls_adds; [exact Ht|]. rewrite Hu. exact Hn.
Qed.

(** C9.  The text of two spaces has no slash; the FORWARD_SLASH pattern
    matches it three times with its group left out, each time with the empty
    string as raw match; the normaliser turns the empty string into [/]; and
    [/] ends up in the FORWARD_SLASH set, under both lists of forbidden
    characters, also when a scan finds the text in a file. *)
Theorem C9_empty_match_yields_slash uni_alnum (all_urls : result_set)
    (repo file_path directory : list N) :
  ~ In ch_slash (py "  ")
  /\ findall forward_slash_pattern (py "  ") = [[]; []; []]
  /\ clean_url (rstrip (py ",") []) = py "/"
  /\ py "/" ∈ rs_forward (merge_urls dir_forbidden_characters all_urls
                            (extract_urls uni_alnum (py "  ") repo file_path))
  /\ py "/" ∈ rs_forward (merge_urls repo_forbidden_characters all_urls
                            (extract_urls uni_alnum (py "  ") repo file_path))
  /\ py "/" ∈ rs_forward
                (search_directory_for_urls uni_alnum
                   (fun _ => [(py "d", [py "f"])]) (fun _ => true)
                   (fun _ => Some (py "  ")) directory dir_forbidden_characters).
Proof.
  assert (Hf : findall forward_slash_pattern (py "  ") = [[]; []; []])
    by (vm_compute; reflexivity).
  assert (Hin : In [] (findall forward_slash_pattern (py "  ")))
    by (rewrite Hf; left; reflexivity).
  split; [|split; [exact Hf|split; [reflexivity|split; [|split]]]].
  - simpl. intros [H|[H|H]]; [discriminate H|discriminate H|exact H].
  - apply empty_match_adds_slash; [exact Hin|reflexivity].
  - apply empty_match_adds_slash; [exact Hin|reflexivity].
  - unfold search_directory_for_urls, scan_file.
    cbn [fold_left fst snd negb].
    apply empty_match_adds_slash; [exact Hin|reflexivity].
Qed.

(** ** Which tokens the PARTIAL_URL pattern finds *)

Lemma search_unfold (pat : re) p (s : list N) adv :
  search pat p s adv
  = match run pat p s None (accept p adv) with
    | Some x => Some x
    | None =>
        match s with
        | [] => None
        | _ :: s' => search pat (S p) s' false
        end
    end.
Proof. destruct s; reflexivity. Qed.

(** A search does not pass over a position at which the pattern matches. *)
Lemma search_complete (pat : re) :
  plain_lookaheads pat = true ->
  forall (gap : list N) p adv w s' g,
    den pat (p + length gap)%nat w s' None g ->
    (adv = true -> gap = [] -> w <> []) ->
    exists b e g',
      search pat p (gap ++ w ++ s') adv = Some (b, e, g')
      /\ (b <= p + length gap)%nat.
Proof.
  intros Hwf. induction gap as [|c gap IH]; intros p adv w s' g HD Hadv;
    rewrite search_unfold;
    match goal with
    | |- context [run pat p ?s None (accept p adv)] =>
        destruct (run_spec pat Hwf _ (accept p adv) p s None) as [HS HC];
        destruct (run pat p s None (accept p adv)) as [[[b e] g']|] eqn:Er
    end.
  - destruct (HS _ eq_refl) as (w0 & s0 & g0 & _ & _ & Hk).
    unfold accept in Hk. destruct (adv && _); [discriminate|].
    injection Hk as <- _ _. exists p, e, g'. split; [reflexivity|lia].
  - exfalso. simpl in HD. rewrite Nat.add_0_r in HD.
    specialize (HC eq_refl w s' g eq_refl HD). unfold accept in HC.
    destruct adv; simpl in HC; [|discriminate].
    destruct (Nat.eqb_spec (p + length w) p) as [E|E]; [|discriminate].
    apply (Hadv eq_refl eq_refl). destruct w; [reflexivity|simpl in E; lia].
  - destruct (HS _ eq_refl) as (w0 & s0 & g0 & _ & _ & Hk).
    unfold accept in Hk. destruct (adv && _); [discriminate|].
    injection Hk as <- _ _. exists p, e, g'. split; [reflexivity|lia].
  - simpl. simpl in HD.
    replace (p + S (length gap))%nat with (S p + length gap)%nat in HD by lia.
    destruct (IH (S p) false w s' g HD) as (b & e & g' & Hs & Hb);
      [discriminate|].
    exists b, e, g'. split; [exact Hs|lia].
Qed.

Lemma run_unique (p : N -> bool) (a a' b b' : list N) :
  Forall (fun c => p c = true) a -> Forall (fun c => p c = true) a' ->
  stops p b -> stops p b' -> a ++ b = a' ++ b' -> a = a'.
Proof.
  intros Fa. revert a'. induction Fa as [|x a Hx Fa IH]; intros a' Fa' Hb Hb' E.
  - destruct Fa' as [|y a' Hy _]; [reflexivity|].
    simpl in E. subst b. simpl in Hb. congruence.
  - destruct Fa' as [|y a' Hy Fa'].
    + simpl in E. subst b'. simpl in Hb'. congruence.
    + simpl in E. injection E as -> E. f_equal. apply IH; assumption.
Qed.

Section TokensFound.

Variable uni_alnum : N -> bool.
Hypothesis Htable : table_ok uni_alnum.

Lemma boundary_not_path (c : N) :
  is_boundary c = true -> is_path_char uni_alnum c = false.
Proof.
  intros Hb. unfold is_path_char, is_word.
  destruct (N.ltb_spec c 128) as [Hlt|Hge].
  - unfold is_boundary in Hb. class_facts.
  - rewrite (Htable c Hb). unfold is_boundary in Hb. class_facts.
Qed.

Lemma right_bounded_stops (post : list N) :
  right_bounded post -> stops (is_path_char uni_alnum) post.
Proof.
  intros [->|(c & s0 & -> & Hc)]; [exact I|].
  simpl. apply boundary_not_path, Hc.
Qed.

Lemma path_token_chars (tok : list N) :
  path_token uni_alnum tok -> Forall (fun c => is_path_char uni_alnum c = true) tok.
Proof.
  intros (pfx & t & -> & Hp & F). apply Forall_app. split; [|exact F].
  destruct Hp as [->|[->| ->]]; repeat constructor.
Qed.

Lemma path_token_head (tok : list N) :
  path_token uni_alnum tok -> exists c t, tok = c :: t /\ is_boundary c = false.
Proof.
  intros (pfx & t & -> & Hp & _).
  destruct Hp as [->|[->| ->]]; eexists _, _; split; reflexivity.
Qed.

Lemma dot_token_path_token (tok : list N) :
  dot_token uni_alnum tok -> path_token uni_alnum tok.
Proof.
  intros (pfx & t & -> & Hp & F). exists pfx, t. tauto.
Qed.

(** A match of the PARTIAL_URL pattern, in words. *)
Lemma den_partial_url_pattern i w s g g' :
  den (partial_url_pattern uni_alnum) i w s g g'
  <-> exists bnd tok,
        w = bnd ++ tok /\ left_bounded i bnd /\ line_clean (tok ++ s)
        /\ g' = Some tok /\ path_token uni_alnum tok
        /\ right_bounded s /\ ~ on_line (py ",") s.
Proof.
  rewrite partial_url_pattern_framed, den_framed. split.
  - intros (bnd & tok & E & Hl & Hc & HG & Hr & Hn).
    apply den_partial_group in HG as [-> Ht]. exists bnd, tok. auto 10.
  - intros (bnd & tok & E & Hl & Hc & -> & Ht & Hr & Hn).
    exists bnd, tok.
    split; [exact E|]. split; [exact Hl|]. split; [exact Hc|].
    split; [|split; assumption].
    apply den_partial_group. split; [reflexivity|exact Ht].
Qed.

(** At the position of a bounded token the pattern matches that token and
    nothing else. *)
Lemma partial_match_unique i w s g (lead tok post : list N) :
  den (partial_url_pattern uni_alnum) i w s None g ->
  lead = [] \/ (exists c, lead = [c] /\ is_boundary c = true) ->
  w ++ s = lead ++ tok ++ post ->
  dot_token uni_alnum tok -> right_bounded post ->
  g = Some tok.
Proof.
  intros HD Hlead E Htok Hpost.
  apply den_partial_url_pattern in HD
    as (bnd & tok' & -> & Hl & _ & -> & Ht' & Hr & _).
  apply dot_token_path_token in Htok.
  assert (Hcore : tok' ++ s = tok ++ post -> Some tok' = Some tok).
  { intros E'. f_equal.
    apply (run_unique (is_path_char uni_alnum) tok' tok s post);
      auto using path_token_chars, right_bounded_stops. }
  rewrite <- app_assoc in E.
  destruct Hl as [[-> _]|(c' & -> & Hc')], Hlead as [->|(c & -> & Hc)];
    simpl in E.
  - apply Hcore, E.
  - destruct (path_token_head _ Ht') as (x & t & -> & Hx).
    simpl in E. injection E as -> _. congruence.
  - destruct (path_token_head _ Htok) as (x & t & -> & Hx).
    simpl in E. injection E as -> _. congruence.
  - injection E as _ E. apply Hcore, E.
Qed.

(** A match that starts before a boundary character ends before it. *)
Lemma partial_match_short i w s g (gr rest : list N) (c : N) :
  den (partial_url_pattern uni_alnum) i w s None g ->
  w ++ s = gr ++ c :: rest -> gr <> [] -> is_boundary c = true ->
  (length w <= length gr)%nat.
Proof.
  intros HD E Hgr Hc.
  apply den_partial_url_pattern in HD
    as (bnd & tok & -> & Hl & _ & _ & Ht & _ & _).
  apply path_token_chars in Ht.
  destruct (Nat.le_gt_cases (length (bnd ++ tok)) (length gr)) as [Hle|Hgt];
    [exact Hle|exfalso].
  assert (Hb : (length bnd <= length gr)%nat).
  { destruct gr; [contradiction|].
    destruct Hl as [[-> _]|(c' & -> & _)]; simpl; lia. }
  assert (Hlook : ((bnd ++ tok) ++ s) !! length gr = Some c)
    by (rewrite E; apply list_lookup_middle; reflexivity).
  rewrite lookup_app_l in Hlook by exact Hgt.
  rewrite lookup_app_r in Hlook by exact Hb.
  apply (Forall_lookup_1 _ _ _ _ Ht) in Hlook. cbv beta in Hlook.
  rewrite (boundary_not_path c Hc) in Hlook. discriminate.
Qed.

End TokensFound.

Lemma occurs_here (l s : list N) :
  startswith l s = true -> occurs_on_line l s = true.
Proof. destruct s; simpl; intros ->; reflexivity. Qed.

Lemma on_line_iff (l s : list N) : on_line l s <-> occurs_on_line l s = true.
Proof.
  unfold on_line. split.
  - intros (a & b & -> & F). induction F as [|c a Hc F IH].
    + change ([] ++ l ++ b) with (l ++ b). apply occurs_here, startswith_app.
    + cbn [app occurs_on_line]. rewrite Hc, IH. apply orb_true_r.
  - induction s as [|c s IH]; simpl; intros H.
    + rewrite orb_false_r in H. apply startswith_inv in H as [t E].
      exists [], t. split; [exact E|constructor].
    + apply orb_true_iff in H as [H|H].
      * apply startswith_inv in H as [t E]. exists [], t.
        split; [exact E|constructor].
      * apply andb_true_iff in H as [Hc H].
        destruct (IH H) as (a & b & -> & F).
        exists (c :: a), b. split; [reflexivity|constructor; assumption].
Qed.

Lemma not_on_line (l s : list N) : occurs_on_line l s = false -> ~ on_line l s.
Proof. intros H Ho. apply on_line_iff in Ho. congruence. Qed.

Lemma app_split_le {A : Type} (a b c d : list A) :
  a ++ b = c ++ d -> (length a <= length c)%nat ->
  exists k, c = a ++ k /\ b = k ++ d.
Proof.
  intros E Hle. apply app_eq_inv in E as [(k & -> & ->)|(k & -> & ->)].
  - rewrite length_app in Hle. destruct k; [|simpl in Hle; lia].
    exists []. rewrite !app_nil_r. auto.
  - exists k. auto.
Qed.

Section TokensReached.

Variable uni_alnum : N -> bool.
Hypothesis Htable : table_ok uni_alnum.

Lemma token_match i (lead tok post : list N) :
  left_bounded i lead -> dot_token uni_alnum tok -> right_bounded post ->
  line_clean (tok ++ post) -> ~ on_line (py ",") post ->
  den (partial_url_pattern uni_alnum) i (lead ++ tok) post None (Some tok).
Proof.
  intros Hl Ht Hr Hc Hn. apply den_partial_url_pattern.
  exists lead, tok. split; [reflexivity|]. split; [exact Hl|].
  split; [exact Hc|]. split; [reflexivity|].
  split; [apply dot_token_path_token, Ht|]. split; assumption.
Qed.

(** The scan reaches a bounded token that lies ahead and returns it. *)
Lemma findall_from_reaches (c : N) (tok post : list N) :
  is_boundary c = true -> dot_token uni_alnum tok -> right_bounded post ->
  line_clean (tok ++ post) -> ~ on_line (py ",") post ->
  forall fuel (gap : list N) p adv,
    (rounds (gap ++ c :: tok ++ post) adv <= fuel)%nat ->
    In tok (findall_from fuel (partial_url_pattern uni_alnum) p
              (gap ++ c :: tok ++ post) adv).
Proof.
  intros Hc Ht Hr Hl Hn.
  pose proof (partial_url_pattern_plain uni_alnum) as Hwf.
  induction fuel as [|fuel IH]; intros gap p adv Hf.
  - unfold rounds in Hf. destruct adv; lia.
  - cbn [findall_from].
    assert (HD : den (partial_url_pattern uni_alnum) (p + length gap)
                   ([c] ++ tok) post None (Some tok)).
    { apply token_match; try assumption. right. exists c. auto. }
    destruct (search_complete _ Hwf gap p adv _ _ _ HD) as (b & e & g' & Hs & Hb);
      [discriminate|].
    change (gap ++ ([c] ++ tok) ++ post) with (gap ++ c :: tok ++ post) in Hs.
    rewrite Hs.
    destruct (search_sound _ Hwf _ _ _ _ _ _ Hs)
      as (skip & w & s' & E & -> & -> & HD' & Hadv).
    symmetry in E.
    apply app_split_le in E as (gr & -> & E); [|lia].
    destruct gr as [|x gr].
    + left. unfold item.
      change (has_group (partial_url_pattern uni_alnum)) with true. cbv iota.
      rewrite (partial_match_unique uni_alnum Htable _ _ _ _ [c] tok post HD');
        [reflexivity|right; exists c; auto|exact E|exact Ht|exact Hr].
    + right.
      pose proof (partial_match_short uni_alnum Htable _ _ _ _ (x :: gr)
                    (tok ++ post) c HD' E ltac:(discriminate) Hc) as Hshort.
      apply app_split_le in E as (gr' & Eg & ->); [|exact Hshort].
      rewrite Eg, <- !app_assoc.
      replace (p + length skip + length w - p)%nat
        with (length (skip ++ w)) by (rewrite length_app; lia).
      rewrite (app_assoc skip w), drop_app_length.
      apply IH.
      rewrite Eg, <- !app_assoc in Hf. unfold rounds in *.
      rewrite !length_app in Hf. rewrite !length_app.
      destruct (Nat.eqb_spec (p + length skip + length w) (p + length skip)) as [E0|E0].
      * assert (length w = O) by lia.
        destruct skip as [|y skip]; cbn [length] in *; [|lia].
        destruct adv; [|lia].
        destruct w; [|cbn [length] in *; lia]. exfalso. apply Hadv; reflexivity.
      * destruct adv; lia.
Qed.

(** A bounded token at the start of the text is the first item. *)
Lemma findall_first_token (tok post : list N) :
  dot_token uni_alnum tok -> right_bounded post ->
  line_clean (tok ++ post) -> ~ on_line (py ",") post ->
  In tok (findall (partial_url_pattern uni_alnum) (tok ++ post)).
Proof.
  intros Ht Hr Hl Hn.
  pose proof (partial_url_pattern_plain uni_alnum) as Hwf.
  unfold findall.
  replace (2 * length (tok ++ post) + 2)%nat
    with (S (2 * length (tok ++ post) + 1)) by lia.
  cbn [findall_from].
  assert (HD : den (partial_url_pattern uni_alnum) (0 + length (@nil N))
                 ([] ++ tok) post None (Some tok)).
  { apply token_match; try assumption. left. auto. }
  destruct (search_complete _ Hwf [] O false _ _ _ HD) as (b & e & g' & Hs & Hb);
    [discriminate|].
  change ([] ++ ([] ++ tok) ++ post) with (tok ++ post) in Hs.
  rewrite Hs.
  destruct (search_sound _ Hwf _ _ _ _ _ _ Hs)
    as (skip & w & s' & E & -> & -> & HD' & _).
  simpl in Hb. destruct skip; [|simpl in Hb; lia]. simpl in E.
  left. unfold item.
  change (has_group (partial_url_pattern uni_alnum)) with true. cbv iota.
  rewrite (partial_match_unique uni_alnum Htable _ _ _ _ [] tok post HD');
    [reflexivity|left; reflexivity|symmetry; exact E|exact Ht|exact Hr].
Qed.

(** Every bounded token on a clean line is among the raw matches. *)
Lemma bounded_token_found (pre tok post : list N) :
  ends_with_boundary pre -> dot_token uni_alnum tok -> right_bounded post ->
  line_clean (tok ++ post) -> ~ on_line (py ",") post ->
  In tok (findall (partial_url_pattern uni_alnum) (pre ++ tok ++ post)).
Proof.
  intros [->|(pre' & c & -> & Hc)] Ht Hr Hl Hn.
  - change ([] ++ tok ++ post) with (tok ++ post).
    apply findall_first_token; assumption.
  - rewrite <- app_assoc. change ([c] ++ tok ++ post) with (c :: tok ++ post).
    unfold findall. apply findall_from_reaches; try assumption.
    unfold rounds. lia.
Qed.

End TokensReached.

(** C5 (amended).  Provided no whitespace or quote character counts as
    alphanumeric, the PARTIAL_URL pattern finds every token that starts with
    [./] or [../], goes on with word and path characters, has the start of
    the text or a whitespace or quote character before it and the end of the
    text or such a character after it, unless [//], [**], [/*-] or [/*=]
    occurs anywhere on the rest of the line from the token on, or a comma
    anywhere on the rest of the line after the token.  The import line of
    the second scenario yields the raw match [./utils/helper] and the
    normalised string [/utils/helper]. *)
Theorem C5_partial_url_matches_bounded_tokens uni_alnum :
  table_ok uni_alnum ->
  (forall pre tok post : list N,
     ends_with_boundary pre -> dot_token uni_alnum tok -> right_bounded post ->
     line_clean (tok ++ post) -> ~ on_line (py ",") post ->
     In tok (findall (partial_url_pattern uni_alnum) (pre ++ tok ++ post)))
  /\ findall (partial_url_pattern uni_alnum) import_text = [py "./utils/helper"]
  /\ (forall repo file_path,
        clean_urls (partial_urls uni_alnum import_text repo file_path)
        = [MatchTuple (py "/utils/helper") PARTIAL_URL repo file_path 1]).
Proof.
  intros Htable. split; [|split].
  - intros pre tok post. apply bounded_token_found, Htable.
  - vm_compute. reflexivity.
  - intros repo file_path. vm_compute. reflexivity.
Qed.

Lemma C5_witness :
  In (py "./utils/helper")
    (findall (partial_url_pattern ascii_alnum)
       ((py "import " ++ [ch_dquote]) ++ py "./utils/helper" ++ [ch_dquote])).
Proof.
  apply (proj1 (C5_partial_url_matches_bounded_tokens ascii_alnum
                  (fun c _ => eq_refl))).
  - right. exists (py "import "), ch_dquote. split; reflexivity.
  - exists (py "./"), (py "utils/helper").
    split; [reflexivity|]. split; [left; reflexivity|]. repeat constructor.
  - right. exists ch_dquote, []. split; reflexivity.
  - repeat split; apply not_on_line; reflexivity.
  - apply not_on_line. reflexivity.
Defined.

(** C5 as stated fails: in [./a b **] the token [./a] stands at the start of
    the text and before a space, no [//], [**], [/*-] or [/*=] overlaps or
    touches it and the text has no comma, yet the pattern finds nothing,
    because [**] occurs later on the line. *)
Lemma C5_counterexample :
  dot_token ascii_alnum (py "./a")
  /\ ends_with_boundary []
  /\ right_bounded (py " b **")
  /\ ~ adjacent (py "//") [] (py "./a") (py " b **")
  /\ ~ adjacent (py "**") [] (py "./a") (py " b **")
  /\ ~ adjacent (py "/*-") [] (py "./a") (py " b **")
  /\ ~ adjacent (py "/*=") [] (py "./a") (py " b **")
  /\ ~ In ch_comma (py "./a b **")
  /\ (forall uni_alnum,
        findall (partial_url_pattern uni_alnum) (py "./a b **") = []).
Proof.
  split; [|split; [|split; [|split; [|split; [|split; [|split; [|split]]]]]]].
  - exists (py "./"), (py "a"). split; [reflexivity|].
    split; [left; reflexivity|]. repeat constructor.
  - left. reflexivity.
  - right. exists ch_space, (py "b **"). split; reflexivity.
  - intros (a & b & E & Ha & _).
    do 4 (destruct a as [|? a]; [discriminate E|]). simpl in Ha. lia.
  - intros (a & b & E & Ha & _).
    do 4 (destruct a as [|? a]; [discriminate E|]). simpl in Ha. lia.
  - intros (a & b & E & Ha & _).
    do 4 (destruct a as [|? a]; [discriminate E|]). simpl in Ha. lia.
  - intros (a & b & E & Ha & _).
    do 4 (destruct a as [|? a]; [discriminate E|]). simpl in Ha. lia.
  - simpl. intros H. repeat (destruct H as [H|H]; [discriminate H|]). exact H.
  - intros uni_alnum. vm_compute. reflexivity.
Qed.

(** ** The claims at concrete inputs *)

(** C2 at the text of the first scenario: the URL keeps the comma inside it. *)
Lemma C2_witness : full_url_shape (py "https://example.com/a,b").
Proof.
  apply (C2_full_url_scheme_and_class ascii_alnum
           (py "Visit https://example.com/a,b for info") [] []
           (MatchTuple (py "https://example.com/a,b") FULL_URL [] [] 1)).
  - vm_compute. left. reflexivity.
  - reflexivity.
Defined.

(** ** Further facts *)

(** Every raw match of the PARTIAL_URL pattern is a bounded token on a clean
    line: the conditions under which a token is found are also necessary at
    the place where it is found. *)
Lemma partial_url_raw_context uni_alnum (text raw : list N) :
  In raw (findall (partial_url_pattern uni_alnum) text) ->
  exists pre post,
    text = pre ++ raw ++ post /\ ends_with_boundary pre
    /\ path_token uni_alnum raw /\ right_bounded post
    /\ line_clean (raw ++ post) /\ ~ on_line (py ",") post.
Proof.
  intros H.
  apply (findall_sound _ _ _ (partial_url_pattern_plain uni_alnum)) in H
    as (pre & w & s' & g & -> & HD & ->).
  apply den_partial_url_pattern in HD
    as (bnd & tok & -> & Hl & Hc & -> & Ht & Hr & Hn).
  change (has_group (partial_url_pattern uni_alnum)) with true. cbv iota.
  exists (pre ++ bnd), s'. rewrite <- !app_assoc.
  split; [reflexivity|]. split; [|auto].
  destruct Hl as [[-> Hi]|(c & -> & Hb)].
  - destruct pre; [left; reflexivity|discriminate Hi].
  - right. exists pre, c. auto.
Qed.

(** The two entry points write the report of their scan. *)
Lemma process_dir_layout uni_alnum os_walk is_text_file read_file
    (dir_path old : list N) (append : bool) :
  let urls := search_directory_for_urls uni_alnum os_walk is_text_file read_file
                dir_path dir_forbidden_characters in
  process_dir uni_alnum os_walk is_text_file read_file dir_path old append
  = open_output old append
    ++ flag_lines FULL_URL urls
    ++ flag_lines PARTIAL_URL urls
    ++ flag_lines FORWARD_SLASH urls.
Proof. apply dir_report_layout. Qed.

Lemma process_repo_layout uni_alnum os_walk is_text_file read_file
    (old : list N) (append : bool) :
  let urls := search_directory_for_urls uni_alnum os_walk is_text_file read_file
                (py "cloned_repo") repo_forbidden_characters in
  process_repo uni_alnum os_walk is_text_file read_file old append
  = open_output old append
    ++ (py "FULL_URLS:" ++ [ch_nl]) ++ flag_lines FULL_URL urls
    ++ ([ch_nl] ++ py "PARTIAL_URLS:" ++ [ch_nl]) ++ flag_lines PARTIAL_URL urls
    ++ ([ch_nl] ++ py "FORWARD_SLASHES:" ++ [ch_nl]) ++ flag_lines FORWARD_SLASH urls.
Proof. apply repo_report_layout. Qed.

(** The third scenario of the specification: an absolute path stays as it is. *)
Lemma etc_passwd_scenario uni_alnum (repo file_path : list N) :
  findall forward_slash_pattern (py "path: /etc/passwd") = [py "/etc/passwd"]
  /\ clean_urls (forward_slash_strings (py "path: /etc/passwd") repo file_path)
     = [MatchTuple (py "/etc/passwd") FORWARD_SLASH repo file_path 1]
  /\ findall (partial_url_pattern uni_alnum) (py "path: /etc/passwd")
     = [py "/etc/passwd"].
Proof. repeat split; vm_compute; reflexivity. Qed.

(** C1 at a tree with one file that holds two spaces: the string [/] is in
    the FORWARD_SLASH set of the scan, and it has no space. *)
Lemma C1_witness : ~ In ch_space (py "/").
Proof.
  apply (proj1 (proj2 (C1_result_set_unique_and_filtered ascii_alnum
                         (fun _ => [(py "d", [py "f"])]) (fun _ => true)
                         (fun _ => Some (py "  ")) (py "d")
                         dir_forbidden_characters))
           FORWARD_SLASH (py "/") ch_space).
  - unfold search_directory_for_urls, scan_file.
    cbn [fold_left fst snd negb].
    apply (empty_match_adds_slash ascii_alnum dir_forbidden_characters).
    + vm_compute. left. reflexivity.
    + reflexivity.
  - left. reflexivity.
Defined.

(** * More about the code *)

(** ** What a scan collects *)

(** A fold whose steps only add: what is in the result was there at the
    start or was added by the step for some element. *)
Lemma fold_left_collects {B : Type} (step : result_set -> B -> result_set)
    (Q : B -> flag -> list N -> Prop) :
  (forall acc b fl u,
     u ∈ rs_get (step acc b) fl <-> u ∈ rs_get acc fl \/ Q b fl u) ->
  forall (l : list B) acc fl u,
    u ∈ rs_get (fold_left step l acc) fl
    <-> u ∈ rs_get acc fl \/ exists b, In b l /\ Q b fl u.
Proof.
  intros Hstep. induction l as [|b l IH]; intros acc fl u; simpl.
  - split; [auto|]. intros [H|(b & [] & _)]. exact H.
  - rewrite IH, Hstep. split.
    + intros [[H|H]|(b' & Hb & H)]; [auto| |].
      * right. exists b. auto.
      * right. exists b'. auto.
    + intros [H|(b' & [<-|Hb] & H)]; [auto|auto|].
      right. exists b'. auto.
Qed.

Section ScanContent.

Variable uni_alnum : N -> bool.
Variable os_walk : list N -> list (list N * list (list N)).
Variable is_text_file : list N -> bool.
Variable read_file : list N -> option (list N).

Lemma scan_file_spec forbidden_characters all_urls root file_name fl u :
  u ∈ rs_get (scan_file uni_alnum is_text_file read_file forbidden_characters
                all_urls root file_name) fl
  <-> u ∈ rs_get all_urls fl
      \/ (file_yields uni_alnum is_text_file read_file root file_name fl u
          /\ has_forbidden forbidden_characters u = false).
Proof.
  unfold scan_file, file_yields.
  destruct (is_text_file (path_join root file_name)); simpl.
  - destruct (read_file (path_join root file_name)) as [content|].
    + rewrite merge_urls_spec. split.
      * intros [H|(t & Ht & Hf & Hu & Hn)]; [auto|].
        right. split; [|exact Hn]. split; [reflexivity|].
        exists content. split; [reflexivity|]. exists t. auto.
      * intros [H|[(_ & c & Hc & t & Ht & Hf & Hu) Hn]]; [auto|].
        injection Hc as <-. right. exists t. auto.
    + split; [auto|]. intros [H|[(_ & c & Hc & _) _]]; [exact H|discriminate].
  - split; [auto|]. intros [H|[(Hc & _) _]]; [exact H|discriminate].
Qed.

Lemma search_directory_spec directory forbidden_characters fl u :
  u ∈ rs_get (search_directory_for_urls uni_alnum os_walk is_text_file
                read_file directory forbidden_characters) fl
  <-> exists root files file_name,
        In (root, files) (os_walk directory) /\ In file_name files
        /\ file_yields uni_alnum is_text_file read_file root file_name fl u
        /\ has_forbidden forbidden_characters u = false.
Proof.
  unfold search_directory_for_urls.
  rewrite (fold_left_collects _
             (fun entry fl u =>
                exists file_name, In file_name (snd entry)
                  /\ file_yields uni_alnum is_text_file read_file (fst entry) file_name fl u
                  /\ has_forbidden forbidden_characters u = false)).
  - split.
    + intros [H|([root files] & He & file_name & Hf & H)].
      * destruct fl; simpl in H; apply elem_of_empty in H; contradiction.
      * exists root, files, file_name. auto.
    + intros (root & files & file_name & He & Hf & H).
      right. exists (root, files). split; [exact He|]. exists file_name. auto.
  - intros acc entry fl' u'.
    apply (fold_left_collects _
             (fun file_name fl u =>
                file_yields uni_alnum is_text_file read_file (fst entry) file_name fl u
                /\ has_forbidden forbidden_characters u = false)).
    intros acc' file_name fl'' u''. apply scan_file_spec.
Qed.

End ScanContent.

(** X1.  A string is in a set of the scan exactly when some file that
    [os.walk] lists passes the probe, can be read, and has among the tuples
    of its content one with that flag and that string, and the string holds
    no forbidden character. *)
Theorem X1_scan_content uni_alnum
    (os_walk : list N -> list (list N * list (list N)))
    (is_text_file : list N -> bool) (read_file : list N -> option (list N))
    (directory forbidden_characters : list N) (fl : flag) (u : list N) :
  u ∈ rs_get (search_directory_for_urls uni_alnum os_walk is_text_file
                read_file directory forbidden_characters) fl
  <-> exists root files file_name,
        In (root, files) (os_walk directory) /\ In file_name files
        /\ file_yields uni_alnum is_text_file read_file root file_name fl u
        /\ has_forbidden forbidden_characters u = false.
Proof. apply search_directory_spec. Qed.

(** X2.  The result of a scan depends on which files are listed, not on the
    order in which [os.walk] yields them nor on how often a file is listed. *)
Theorem X2_scan_ignores_order uni_alnum
    (walk1 walk2 : list N -> list (list N * list (list N)))
    (is_text_file : list N -> bool) (read_file : list N -> option (list N))
    (directory forbidden_characters : list N) :
  (forall root file_name,
     (exists files, In (root, files) (walk1 directory) /\ In file_name files)
     <-> (exists files, In (root, files) (walk2 directory) /\ In file_name files)) ->
  search_directory_for_urls uni_alnum walk1 is_text_file read_file
    directory forbidden_characters
  = search_directory_for_urls uni_alnum walk2 is_text_file read_file
      directory forbidden_characters.
Proof.
  intros Hsame. apply result_set_ext. intros fl u.
  rewrite !search_directory_spec. split.
  - intros (root & files & file_name & He & Hf & H).
    destruct (proj1 (Hsame root file_name)) as (files' & He' & Hf'); [eauto|].
    exists root, files', file_name. auto.
  - intros (root & files & file_name & He & Hf & H).
    destruct (proj2 (Hsame root file_name)) as (files' & He' & Hf'); [eauto|].
    exists root, files', file_name. auto.
Qed.

Lemma X2_witness :
  search_directory_for_urls ascii_alnum
    (fun _ => [(py "d", [py "a"; py "b"])]) (fun _ => true)
    (fun p => Some p) (py "d") dir_forbidden_characters
  = search_directory_for_urls ascii_alnum
      (fun _ => [(py "d", [py "b"]); (py "d", [py "a"; py "a"])]) (fun _ => true)
      (fun p => Some p) (py "d") dir_forbidden_characters.
Proof.
  apply (X2_scan_ignores_order ascii_alnum
           (fun _ => [(py "d", [py "a"; py "b"])])
           (fun _ => [(py "d", [py "b"]); (py "d", [py "a"; py "a"])])).
  intros root file_name. simpl. split.
  - intros (files & [E|[]] & Hf). injection E as <- <-.
    destruct Hf as [<-|[<-|[]]].
    + exists [py "a"; py "a"]. split; [right; left; reflexivity|left; reflexivity].
    + exists [py "b"]. split; [left; reflexivity|left; reflexivity].
  - intros (files & [E|[E|[]]] & Hf); injection E as <- <-;
      exists [py "a"; py "b"]; (split; [left; reflexivity|]).
    + destruct Hf as [<-|[]]. right; left; reflexivity.
    + destruct Hf as [<-|[<-|[]]]; left; reflexivity.
Defined.

Lemma has_forbidden_repo (u : list N) :
  has_forbidden repo_forbidden_characters u = false
  <-> has_forbidden dir_forbidden_characters u = false /\ ~ In ch_at u.
Proof.
  rewrite !has_forbidden_false.
  change repo_forbidden_characters with (dir_forbidden_characters ++ [ch_at]).
  split.
  - intros H. split.
    + intros c Hc. apply H, in_or_app. left. exact Hc.
    + apply H, in_or_app. right. left. reflexivity.
  - intros [Hd Ha] c Hc. apply in_app_or in Hc as [Hc|[<-|[]]]; [apply Hd, Hc|exact Ha].
Qed.

(** X3.  On the same tree the sets of the repository mode are the sets of
    the directory mode without the strings that hold an [@]. *)
Theorem X3_repo_mode_drops_at_sign uni_alnum
    (os_walk : list N -> list (list N * list (list N)))
    (is_text_file : list N -> bool) (read_file : list N -> option (list N))
    (directory : list N) (fl : flag) (u : list N) :
  u ∈ rs_get (search_directory_for_urls uni_alnum os_walk is_text_file
                read_file directory repo_forbidden_characters) fl
  <-> u ∈ rs_get (search_directory_for_urls uni_alnum os_walk is_text_file
                    read_file directory dir_forbidden_characters) fl
      /\ ~ In ch_at u.
Proof.
  rewrite !search_directory_spec. split.
  - intros (root & files & file_name & He & Hf & Hy & Hn).
    apply has_forbidden_repo in Hn as [Hd Ha]. split; [|exact Ha].
    exists root, files, file_name. auto.
  - intros [(root & files & file_name & He & Hf & Hy & Hd) Ha].
    exists root, files, file_name.
    split; [exact He|]. split; [exact Hf|]. split; [exact Hy|].
    apply has_forbidden_repo. auto.
Qed.

(** ** The characters of the extracted strings *)

Lemma lstrip_Forall (Q : N -> Prop) (cs s : list N) :
  Forall Q s -> Forall Q (lstrip cs s).
Proof.
  intros H. destruct (lstrip_split cs s) as (pre & E & _).
  rewrite E in H. apply Forall_app in H as [_ H]. exact H.
Qed.

Lemma clean_url_Forall (Q : N -> Prop) (u : list N) :
  Q ch_slash -> Forall Q u -> Forall Q (clean_url u).
Proof.
  intros Hs Hu. destruct (has_dot_prefix u) eqn:E.
  - rewrite clean_url_dot by exact E. constructor; [exact Hs|].
    apply lstrip_Forall, Hu.
  - rewrite clean_url_plain by exact E.
    destruct (startswith (py "/") u); [exact Hu|constructor; assumption].
Qed.

Lemma forward_slash_raw_chars (text raw : list N) :
  In raw (findall forward_slash_pattern text) ->
  Forall (fun c => is_fs_char c = true) raw.
Proof.
  intros H.
  apply (findall_sound _ _ _ forward_slash_pattern_plain) in H
    as (pre & w & s' & g & _ & HD & ->).
  rewrite forward_slash_pattern_framed in HD.
  apply den_framed in HD as (bnd & tok & _ & _ & _ & HG & _).
  change (has_group (framed forward_group)) with true. cbv iota.
  apply den_forward_group in HG as [[_ ->]|(t & -> & F & ->)].
  - constructor.
  - simpl. constructor; [reflexivity|exact F].
Qed.

Lemma partial_url_raw_chars uni_alnum (text raw : list N) :
  In raw (findall (partial_url_pattern uni_alnum) text) ->
  Forall (fun c => is_path_char uni_alnum c = true) raw.
Proof.
  intros H. apply partial_url_raw_context in H as (pre & post & _ & _ & Ht & _).
  apply path_token_chars, Ht.
Qed.

(** ** Normalised matches, by the raw match *)

Lemma rstrip_none (cs s : list N) :
  Forall (fun c => char_in c cs = false) s -> rstrip cs s = s.
Proof.
  induction 1 as [|c s Hc _ IH]; simpl; [reflexivity|].
  rewrite IH. destruct s; [rewrite Hc|]; reflexivity.
Qed.

Lemma path_char_not_comma uni_alnum (c : N) :
  is_path_char uni_alnum c = true -> char_in c (py ",") = false.
Proof.
  intros H. unfold char_in. change (py ",") with [ch_comma]. simpl.
  rewrite orb_false_r. destruct (c =? ch_comma) eqn:E; [|reflexivity].
  apply N.eqb_eq in E. subst c. discriminate H.
Qed.

(** The raw matches of the PARTIAL_URL pattern have no comma to lose. *)
Lemma partial_url_raw_rstrip uni_alnum (text raw : list N) :
  In raw (findall (partial_url_pattern uni_alnum) text) ->
  rstrip (py ",") raw = raw.
Proof.
  intros H. apply rstrip_none.
  eapply Forall_impl; [exact (partial_url_raw_chars _ _ _ H)|].
  intros c Hc. cbv beta in Hc. exact (path_char_not_comma _ _ Hc).
Qed.

Lemma normal_form_dot (u : list N) :
  has_dot_prefix u = true ->
  (exists pre rest,
     u = pre ++ rest
     /\ Forall (fun c => is_dot_or_slash c = true) pre
     /\ no_leading_dot_or_slash rest
     /\ clean_url u = ch_slash :: rest)
  /\ normal_form (clean_url u).
Proof.
  intros H. destruct (strip_round_split u) as (pre & E & F).
  rewrite (clean_url_round u H). split.
  - exists pre, (strip_round u).
    split; [exact E|]. split; [exact F|].
    split; [apply strip_round_head|reflexivity].
  - exists (strip_round u). split; [reflexivity|apply strip_round_head].
Qed.

(** C3 (amended).  Whatever the text, every string that [extract_urls]
    flags PARTIAL_URL or FORWARD_SLASH starts with exactly one slash, and
    what follows the slash depends on the raw match it comes from.  A raw
    match that starts with [./] or [../] loses all its leading dots and
    slashes, so neither a dot nor a slash follows the one slash.  A raw
    match that starts with a slash is kept as it is, without its trailing
    commas, so a dot may follow the slash.  An empty raw match gives the
    slash alone.  There is no other case. *)
Theorem C3_normalised_by_raw_match uni_alnum
    (text repo file_path : list N) (t : match_tuple) :
  In t (extract_urls uni_alnum text repo file_path) ->
  m_flag t = PARTIAL_URL \/ m_flag t = FORWARD_SLASH ->
  single_slash (m_url t)
  /\ exists raw,
       In raw (findall (flag_pattern uni_alnum (m_flag t)) text)
       /\ m_url t = clean_url (rstrip (py ",") raw)
       /\ ((has_dot_prefix raw = true
            /\ (exists pre rest,
                  raw = pre ++ rest
                  /\ Forall (fun c => is_dot_or_slash c = true) pre
                  /\ no_leading_dot_or_slash rest
                  /\ m_url t = ch_slash :: rest)
            /\ normal_form (m_url t))
           \/ (startswith (py "/") raw = true
               /\ m_url t = rstrip (py ",") raw)
           \/ (raw = [] /\ m_url t = py "/")).
Proof.
  intros Hin Hfl.
  split; [exact (normalised_single_slash _ _ _ _ _ Hin Hfl)|].
  pose proof (In_extract_urls _ _ _ _ _ Hin) as H.
  destruct Hfl as [Hfl|Hfl]; rewrite Hfl in H |- *;
    destruct H as (raw & Hraw & E); exists raw;
    (split; [exact Hraw|]); (split; [exact E|]).
  - pose proof (partial_url_raw_rstrip _ _ _ Hraw) as Hr.
    rewrite E, Hr.
    destruct (partial_url_raw _ _ _ Hraw) as [[r Er]|[[r Er]|(r & Er & _)]].
    + left. assert (Hd : has_dot_prefix raw = true) by (rewrite Er; reflexivity).
      split; [exact Hd|]. apply normal_form_dot, Hd.
    + left. assert (Hd : has_dot_prefix raw = true) by (rewrite Er; reflexivity).
      split; [exact Hd|]. apply normal_form_dot, Hd.
    + right. left. rewrite Er. split; [reflexivity|apply clean_url_slash].
  - rewrite E.
    destruct (forward_slash_raw _ _ Hraw) as [Er|(r & Er & _)].
    + right. right. rewrite Er. split; reflexivity.
    + right. left. rewrite Er. split; [reflexivity|].
      change (ch_slash :: r) with ([] ++ ch_slash :: r).
      rewrite (rstrip_keep (py ",") [] r ch_slash) by reflexivity.
      apply clean_url_slash.
Qed.

(** C3 at the import line of the second scenario: the raw match starts with
    [./] and the string is in normal form. *)
Lemma C3_witness :
  single_slash (py "/utils/helper")
  /\ exists raw,
       In raw (findall (partial_url_pattern ascii_alnum) import_text)
       /\ py "/utils/helper" = clean_url (rstrip (py ",") raw)
       /\ ((has_dot_prefix raw = true
            /\ (exists pre rest,
                  raw = pre ++ rest
                  /\ Forall (fun c => is_dot_or_slash c = true) pre
                  /\ no_leading_dot_or_slash rest
                  /\ py "/utils/helper" = ch_slash :: rest)
            /\ normal_form (py "/utils/helper"))
           \/ (startswith (py "/") raw = true
               /\ py "/utils/helper" = rstrip (py ",") raw)
           \/ (raw = [] /\ py "/utils/helper" = py "/")).
Proof.
  apply (C3_normalised_by_raw_match ascii_alnum import_text [] []
           (MatchTuple (py "/utils/helper") PARTIAL_URL [] [] 1)).
  - vm_compute. left. reflexivity.
  - left. reflexivity.
Defined.

(** C3 as stated fails when the raw match starts with a slash: in the text
    [see /.x] both path patterns match [/.x], and in [/../etc/passwd] the
    PARTIAL_URL pattern matches the whole text.  The normaliser returns
    these strings as they are, with a dot right after the slash. *)
Lemma C3_counterexample :
  In (MatchTuple (py "/.x") PARTIAL_URL [] [] 1)
    (extract_urls ascii_alnum (py "see /.x") [] [])
  /\ In (MatchTuple (py "/.x") FORWARD_SLASH [] [] 1)
       (extract_urls ascii_alnum (py "see /.x") [] [])
  /\ ~ normal_form (py "/.x")
  /\ In (MatchTuple (py "/../etc/passwd") PARTIAL_URL [] [] 1)
       (extract_urls ascii_alnum (py "/../etc/passwd") [] [])
  /\ ~ normal_form (py "/../etc/passwd").
Proof.
  split; [vm_compute; tauto|]. split; [vm_compute; tauto|].
  split; [intros (rest & E & H); injection E as <-; discriminate H|].
  split; [vm_compute; tauto|].
  intros (rest & E & H). injection E as <-. discriminate H.
Qed.

Lemma forbidden_not_path_chars uni_alnum :
  Forall (fun c => is_path_char uni_alnum c = false) repo_forbidden_characters.
Proof. repeat constructor. Qed.

Lemma has_forbidden_disjoint (Q : N -> bool) (forbidden_characters u : list N) :
  Forall (fun c => Q c = false) forbidden_characters ->
  Forall (fun c => Q c = true) u ->
  has_forbidden forbidden_characters u = false.
Proof.
  intros HF Hu. apply has_forbidden_false. intros c Hc Hin.
  rewrite List.Forall_forall in HF, Hu.
  specialize (HF c Hc). specialize (Hu c Hin). congruence.
Qed.

(** X4.  A PARTIAL_URL string is made of word characters, dots and slashes
    only, so neither list of forbidden characters ever drops one: every
    PARTIAL_URL tuple of a file ends up in the set. *)
Theorem X4_partial_url_never_filtered uni_alnum (all_urls : result_set)
    (text repo file_path : list N) (t : match_tuple) :
  In t (extract_urls uni_alnum text repo file_path) ->
  m_flag t = PARTIAL_URL ->
  Forall (fun c => is_path_char uni_alnum c = true) (m_url t)
  /\ m_url t ∈ rs_partial (merge_urls repo_forbidden_characters all_urls
                             (extract_urls uni_alnum text repo file_path))
  /\ m_url t ∈ rs_partial (merge_urls dir_forbidden_characters all_urls
                             (extract_urls uni_alnum text repo file_path)).
Proof.
  intros Hin Hfl.
  assert (Hc : Forall (fun c => is_path_char uni_alnum c = true) (m_url t)).
  { pose proof (In_extract_urls _ _ _ _ _ Hin) as H. rewrite Hfl in H.
    destruct H as (raw & Hraw & ->).
    apply clean_url_Forall; [reflexivity|].
    apply rstrip_Forall, (partial_url_raw_chars _ _ _ Hraw). }
  pose proof (forbidden_not_path_chars uni_alnum) as HF.
  split; [exact Hc|].
  change (rs_partial ?rs) with (rs_get rs PARTIAL_URL). rewrite <- Hfl.
  split; apply merge_urls_adds; try exact Hin;
    apply (has_forbidden_disjoint (is_path_char uni_alnum)); try exact Hc.
  - exact HF.
  - change repo_forbidden_characters
      with (dir_forbidden_characters ++ [ch_at]) in HF.
    apply Forall_app in HF as [HF _]. exact HF.
Qed.

Lemma X4_witness :
  Forall (fun c => is_path_char ascii_alnum c = true) (py "/utils/helper")
  /\ py "/utils/helper"
     ∈ rs_partial (merge_urls repo_forbidden_characters all_urls_empty
                     (extract_urls ascii_alnum import_text [] []))
  /\ py "/utils/helper"
     ∈ rs_partial (merge_urls dir_forbidden_characters all_urls_empty
                     (extract_urls ascii_alnum import_text [] [])).
Proof.
  apply (X4_partial_url_never_filtered ascii_alnum all_urls_empty import_text [] []
           (MatchTuple (py "/utils/helper") PARTIAL_URL [] [] 1)).
  - vm_compute. left. reflexivity.
  - reflexivity.
Defined.

(** X5.  A FORWARD_SLASH string holds no whitespace, no quote and no angle
    bracket. *)
Theorem X5_forward_slash_characters uni_alnum (text repo file_path : list N)
    (t : match_tuple) (c : N) :
  In t (extract_urls uni_alnum text repo file_path) ->
  m_flag t = FORWARD_SLASH ->
  In c (m_url t) ->
  is_space c = false /\ c <> ch_dquote /\ c <> ch_squote
  /\ c <> ch_lt /\ c <> ch_gt.
Proof.
  intros Hin Hfl Hc.
  apply In_extract_urls in Hin. rewrite Hfl in Hin.
  destruct Hin as (raw & Hraw & E). rewrite E in Hc.
  assert (F : Forall (fun c => is_fs_char c = true)
                (clean_url (rstrip (py ",") raw))).
  { apply clean_url_Forall; [reflexivity|].
    apply rstrip_Forall, forward_slash_raw_chars with text, Hraw. }
  rewrite List.Forall_forall in F. specialize (F c Hc).
  unfold is_fs_char in F. apply negb_true_iff in F.
  do 4 (apply orb_false_iff in F as [F ?]).
  split; [exact F|]. repeat split; apply N.eqb_neq; assumption.
Qed.

Lemma X5_witness :
  is_space ch_slash = false /\ ch_slash <> ch_dquote /\ ch_slash <> ch_squote
  /\ ch_slash <> ch_lt /\ ch_slash <> ch_gt.
Proof.
  apply (X5_forward_slash_characters ascii_alnum (py "path: /etc/passwd") [] []
           (MatchTuple (py "/etc/passwd") FORWARD_SLASH [] [] 1) ch_slash).
  - vm_compute. right. left. reflexivity.
  - reflexivity.
  - left. reflexivity.
Defined.

Lemma rstrip_last (cs s : list N) (c : N) :
  last (rstrip cs s) = Some c -> char_in c cs = false.
Proof.
  induction s as [|x s IH]; simpl; [discriminate|].
  destruct (rstrip cs s) as [|d t] eqn:E.
  - destruct (char_in x cs) eqn:Ex; [discriminate|].
    simpl. intros [= <-]. exact Ex.
  - rewrite last_cons_cons. exact IH.
Qed.

Lemma last_clean_url (u : list N) (c : N) :
  last (clean_url u) = Some c -> c = ch_slash \/ last u = Some c.
Proof.
  assert (Hsuffix : forall pre v : list N,
            u = pre ++ v -> last (ch_slash :: v) = Some c ->
            c = ch_slash \/ last u = Some c).
  { intros pre v -> H. rewrite last_cons in H. rewrite last_app.
    destruct (last v); [right; exact H|left; congruence]. }
  destruct (has_dot_prefix u) eqn:E.
  - rewrite clean_url_dot by exact E.
    destruct (lstrip_split (py "./") u) as (pre & Eu & _).
    apply (Hsuffix pre). exact Eu.
  - rewrite clean_url_plain by exact E.
    destruct (startswith (py "/") u); [auto|]. apply (Hsuffix []). reflexivity.
Qed.

(** X6.  No string of a tuple of [extract_urls] ends with a comma, whatever
    its flag. *)
Theorem X6_no_trailing_comma uni_alnum (text repo file_path : list N)
    (t : match_tuple) :
  In t (extract_urls uni_alnum text repo file_path) ->
  last (m_url t) <> Some ch_comma.
Proof.
  intros Hin Hl. apply In_extract_urls in Hin.
  assert (Hr : forall raw, last (rstrip (py ",") raw) <> Some ch_comma).
  { intros raw H. apply rstrip_last in H. discriminate H. }
  destruct (m_flag t); destruct Hin as (raw & _ & E); rewrite E in Hl.
  - exact (Hr raw Hl).
  - apply last_clean_url in Hl as [Hl|Hl]; [discriminate Hl|exact (Hr raw Hl)].
  - apply last_clean_url in Hl as [Hl|Hl]; [discriminate Hl|exact (Hr raw Hl)].
Qed.

(** At a URL that is followed by two commas both go. *)
Lemma X6_witness : last (py "https://a.com/x") <> Some ch_comma.
Proof.
  apply (X6_no_trailing_comma ascii_alnum (py "see https://a.com/x,, and") [] []
           (MatchTuple (py "https://a.com/x") FULL_URL [] [] 1)).
  vm_compute. left. reflexivity.
Defined.

(** ** Matches do not overlap *)

Lemma segments_weaken (l : list (list N)) (x s : list N) :
  segments l s -> segments l (x ++ s).
Proof.
  intros H. destruct H as [s|pre w l s H]; [constructor|].
  rewrite app_assoc. constructor. exact H.
Qed.

Lemma segments_length (l : list (list N)) (s : list N) :
  segments l s -> (length (concat l) <= length s)%nat.
Proof.
  induction 1 as [s|pre w l s _ IH]; simpl; [lia|].
  rewrite !length_app. lia.
Qed.

Lemma findall_from_segments (pat : re) :
  plain_lookaheads pat = true -> item_inside pat ->
  forall fuel p (s : list N) adv, segments (findall_from fuel pat p s adv) s.
Proof.
  intros Hwf Hin. induction fuel as [|fuel IH]; intros p s adv; simpl.
  - constructor.
  - destruct (search pat p s adv) as [[[b e] g]|] eqn:Es; [|constructor].
    destruct (search_sound pat Hwf _ _ _ _ _ _ Es)
      as (skip & w & s' & -> & -> & -> & HD & _).
    replace (p + length skip + length w - p)%nat
      with (length (skip ++ w)) by (rewrite length_app; lia).
    rewrite (app_assoc skip w s'), drop_app_length.
    assert (Eitem : item pat p ((skip ++ w) ++ s') (p + length skip)
                      (p + length skip + length w) g
                    = if has_group pat then default [] g else w).
    { unfold item. destruct (has_group pat); [reflexivity|].
      replace (p + length skip - p)%nat with (length skip) by lia.
      replace (p + length skip + length w - (p + length skip))%nat
        with (length w) by lia.
      rewrite <- app_assoc, drop_app_length, take_app_length. reflexivity. }
    rewrite Eitem. destruct (Hin _ _ _ _ HD) as (a & c & Ew).
    set (it := if has_group pat then default [] g else w) in *.
    clearbody it. clear Eitem HD. subst w.
    replace ((skip ++ a ++ it ++ c) ++ s')
      with ((skip ++ a) ++ it ++ (c ++ s'))
      by (rewrite <- !app_assoc; reflexivity).
    constructor. apply segments_weaken, IH.
Qed.

Lemma item_inside_url_pattern : item_inside url_pattern.
Proof.
  intros i w s g _. exists [], []. simpl. symmetry. apply app_nil_r.
Qed.

Lemma item_inside_partial uni_alnum : item_inside (partial_url_pattern uni_alnum).
Proof.
  intros i w s g HD.
  apply den_partial_url_pattern in HD as (bnd & tok & -> & _ & _ & -> & _).
  exists bnd, []. change (has_group (partial_url_pattern uni_alnum)) with true.
  simpl. rewrite app_nil_r. reflexivity.
Qed.

Lemma item_inside_forward : item_inside forward_slash_pattern.
Proof.
  intros i w s g HD. rewrite forward_slash_pattern_framed in HD.
  apply den_framed in HD as (bnd & tok & -> & _ & _ & HG & _).
  change (has_group forward_slash_pattern) with true. cbv iota.
  apply den_forward_group in HG as [[-> ->]|(t & -> & _ & ->)].
  - exists bnd, []. reflexivity.
  - exists bnd, []. simpl. rewrite app_nil_r. reflexivity.
Qed.

(** X7.  The raw matches of each of the three patterns are pieces of the
    text that follow one another without overlap, in the order in which
    [findall] returns them; together they are no longer than the text. *)
Theorem X7_matches_are_disjoint_pieces uni_alnum (text : list N) :
  segments (findall url_pattern text) text
  /\ segments (findall (partial_url_pattern uni_alnum) text) text
  /\ segments (findall forward_slash_pattern text) text
  /\ (length (concat (findall url_pattern text)) <= length text)%nat
  /\ (length (concat (findall (partial_url_pattern uni_alnum) text))
      <= length text)%nat
  /\ (length (concat (findall forward_slash_pattern text)) <= length text)%nat.
Proof.
  assert (H1 : segments (findall url_pattern text) text)
    by (apply findall_from_segments;
        [apply url_pattern_plain|apply item_inside_url_pattern]).
  assert (H2 : segments (findall (partial_url_pattern uni_alnum) text) text)
    by (apply findall_from_segments;
        [apply partial_url_pattern_plain|apply item_inside_partial]).
  assert (H3 : segments (findall forward_slash_pattern text) text)
    by (apply findall_from_segments;
        [apply forward_slash_pattern_plain|apply item_inside_forward]).
  repeat split; try assumption; apply segments_length; assumption.
Qed.

(** ** A URL match is as long as it can be *)

Lemma star_loop_some {R : Type}
    (body : nat -> list N -> option (list N) -> cont R -> option R)
    (k : cont R) (p0 : nat) :
  (forall i s g, (p0 < i)%nat -> k i s g <> None) ->
  forall n i s g, (p0 < i)%nat -> star_loop body k n i s g <> None.
Proof.
  intros Hk. destruct n as [|n]; intros i s g Hi; simpl.
  - apply Hk, Hi.
  - destruct (body i s g _); [discriminate|apply Hk, Hi].
Qed.

(** When the continuation accepts whatever comes after the start, a greedy
    repetition of a part that can take any character of a class stops only
    where the text does not go on with a character of that class. *)
Lemma star_loop_greedy {R : Type} (a : re) (q : N -> bool) (k : cont R)
    (p0 : nat) :
  plain_lookaheads a = true ->
  (forall i c s g, q c = true -> exists g', den a i [c] s g g') ->
  (forall i s g, (p0 < i)%nat -> k i s g <> None) ->
  forall n i (s : list N) g x,
    (length s <= n)%nat -> (p0 <= i)%nat ->
    star_loop (fun i' s' g' k' => run a i' s' g' k') k n i s g = Some x ->
    exists w s' g',
      s = w ++ s' /\ k (i + length w)%nat s' g' = Some x /\ stops q s'.
Proof.
  intros Hwf Hq Hk. induction n as [|n IH]; intros i s g x Hn Hi H.
  - destruct s; [|simpl in Hn; lia]. simpl in H.
    exists [], [], g. rewrite Nat.add_0_r.
    split; [reflexivity|]. split; [exact H|exact I].
  - simpl in H.
    set (k1 := fun i' s' g' =>
                 if (i <? i')%nat
                 then star_loop (fun i' s' g' k' => run a i' s' g' k') k n i' s' g'
                 else None) in H.
    destruct (run_spec a Hwf R k1 i s g) as [HS HC].
    destruct (run a i s g k1) as [y|] eqn:Er.
    + injection H as ->.
      destruct (HS _ eq_refl) as (w1 & s1 & g1 & -> & _ & Hk1).
      unfold k1 in Hk1.
      destruct (i <? i + length w1)%nat eqn:Elt; [|discriminate].
      rewrite length_app in Hn. apply Nat.ltb_lt in Elt.
      apply IH in Hk1 as (w2 & s2 & g2 & -> & Hk2 & Hst); [|lia|lia].
      exists (w1 ++ w2), s2, g2.
      rewrite length_app, Nat.add_assoc, <- app_assoc. auto.
    + exists [], s, g. rewrite Nat.add_0_r.
      split; [reflexivity|]. split; [exact H|].
      destruct s as [|c s0]; [exact I|]. simpl.
      destruct (q c) eqn:Eq; [exfalso|reflexivity].
      destruct (Hq i c s0 g Eq) as [g' HD].
      specialize (HC eq_refl [c] s0 g' eq_refl HD). unfold k1 in HC.
      simpl in HC.
      replace (i <? i + 1)%nat with true in HC
        by (symmetry; apply Nat.ltb_lt; lia).
      revert HC. apply star_loop_some with p0; [exact Hk|lia].
Qed.

Lemma run_seq_inv {R : Type} (a b : re) (k : cont R) i (s : list N) g x :
  plain_lookaheads a = true ->
  run (Seq a b) i s g k = Some x ->
  exists w1 s1 g1,
    s = w1 ++ s1 /\ den a i w1 s1 g g1
    /\ run b (i + length w1)%nat s1 g1 k = Some x.
Proof.
  intros Hwf H.
  change (run (Seq a b) i s g k)
    with (run a i s g (fun i' s' g' => run b i' s' g' k)) in H.
  destruct (run_spec a Hwf R (fun i' s' g' => run b i' s' g' k) i s g) as [HS _].
  exact (HS _ H).
Qed.

Lemma url_unit_takes (i : nat) (c : N) (s : list N) (g : option (list N)) :
  url_char c = true -> exists g', den url_unit i [c] s g g'.
Proof.
  unfold url_char, url_unit. intros H. exists g. simpl.
  destruct (is_letter c) eqn:E1; [left; exists c; auto|].
  destruct (is_digit c) eqn:E2; [right; left; exists c; auto|].
  destruct (is_punct1 c) eqn:E3; [right; right; left; exists c; auto|].
  simpl in H. right. right. right. left. exists c. auto.
Qed.

(** A match of [url_pattern] found by an attempt at [p]: the text goes on,
    after the match, with no URL character. *)
Lemma url_pattern_run_maximal p adv (s : list N) b e g :
  run url_pattern p s None (accept p adv) = Some (b, e, g) ->
  exists w s',
    s = w ++ s' /\ b = p /\ e = (p + length w)%nat /\ stops url_char s'.
Proof.
  unfold url_pattern, Plus. intros H.
  apply run_seq_inv in H as (w1 & s1 & g1 & -> & H1 & H); [|reflexivity].
  apply den_lit in H1 as [-> _].
  apply run_seq_inv in H as (w2 & s2 & g2 & -> & _ & H); [|reflexivity].
  apply run_seq_inv in H as (w3 & s3 & g3 & -> & _ & H); [|reflexivity].
  apply run_seq_inv in H as (w4 & s4 & g4 & -> & _ & H); [|reflexivity].
  change (run (Star url_unit) ?i s4 g4 ?k)
    with (star_loop (fun i' s' g' k' => run url_unit i' s' g' k') k
            (length s4) i s4 g4) in H.
  apply (star_loop_greedy url_unit url_char (accept p adv) p) in H
    as (w5 & s5 & g5 & -> & Hk & Hst);
    [|reflexivity|apply url_unit_takes| |lia|simpl; lia].
  - exists (py "http" ++ w2 ++ w3 ++ w4 ++ w5), s5.
    rewrite <- !app_assoc. split; [reflexivity|].
    unfold accept in Hk. destruct (adv && _); [discriminate|].
    injection Hk as <- <- _.
    rewrite !length_app. change (length (py "http")) with 4%nat.
    repeat split; [lia|exact Hst].
  - intros i s g0 Hi. unfold accept.
    replace (i =? p)%nat with false by (symmetry; apply Nat.eqb_neq; lia).
    rewrite andb_false_r. discriminate.
Qed.

Lemma search_run (pat : re) (s : list N) p adv b e g :
  search pat p s adv = Some (b, e, g) ->
  exists skip s1 adv',
    s = skip ++ s1
    /\ run pat (p + length skip)%nat s1 None (accept (p + length skip)%nat adv')
       = Some (b, e, g).
Proof.
  revert p adv. induction s as [|c s IH]; intros p adv H;
    rewrite search_unfold in H.
  - destruct (run pat p [] None (accept p adv)) as [x|] eqn:Er; [|discriminate].
    injection H as ->. exists [], [], adv. rewrite Nat.add_0_r. auto.
  - destruct (run pat p (c :: s) None (accept p adv)) as [x|] eqn:Er.
    + injection H as ->. exists [], (c :: s), adv. rewrite Nat.add_0_r. auto.
    + destruct (IH _ _ H) as (skip & s1 & adv' & -> & Hr).
      exists (c :: skip), s1, adv'. split; [reflexivity|].
      simpl. replace (p + S (length skip))%nat with (S p + length skip)%nat by lia.
      exact Hr.
Qed.

Lemma findall_url_maximal (fuel p : nat) (s : list N) adv (raw : list N) :
  In raw (findall_from fuel url_pattern p s adv) ->
  exists pre post, s = pre ++ raw ++ post /\ stops url_char post.
Proof.
  revert p s adv. induction fuel as [|fuel IH]; intros p s adv H; simpl in H.
  - contradiction.
  - destruct (search url_pattern p s adv) as [[[b e] g]|] eqn:Es; [|contradiction].
    destruct (search_run _ _ _ _ _ _ _ Es) as (skip & s1 & adv' & -> & Hr).
    apply url_pattern_run_maximal in Hr as (w & s' & -> & -> & -> & Hst).
    replace (p + length skip + length w - p)%nat
      with (length (skip ++ w)) in H by (rewrite length_app; lia).
    rewrite (app_assoc skip w s'), drop_app_length in H.
    destruct H as [<-|H].
    + exists skip, s'. split; [|exact Hst].
      unfold item. change (has_group url_pattern) with false. cbv iota.
      replace (p + length skip - p)%nat with (length skip) by lia.
      replace (p + length skip + length w - (p + length skip))%nat
        with (length w) by lia.
      rewrite <- app_assoc, drop_app_length, take_app_length. reflexivity.
    + destruct (IH _ _ _ H) as (pre & post & -> & Hp).
      exists ((skip ++ w) ++ pre), post. rewrite <- !app_assoc. auto.
Qed.

(** X8.  Every raw FULL_URL match stands in the text before the end of the
    text or before a character that is not a URL character: the match is
    never cut short. *)
Theorem X8_url_match_is_maximal (text raw : list N) :
  In raw (findall url_pattern text) ->
  exists pre post, text = pre ++ raw ++ post /\ stops url_char post.
Proof. apply findall_url_maximal. Qed.

Lemma X8_witness :
  exists pre post,
    py "Visit https://example.com/a,b for info"
    = pre ++ py "https://example.com/a,b" ++ post
    /\ stops url_char post.
Proof.
  apply (X8_url_match_is_maximal (py "Visit https://example.com/a,b for info")
           (py "https://example.com/a,b")).
  vm_compute. left. reflexivity.
Defined.

(** ** Where the path patterns match *)

Lemma forward_slash_raw_context (text raw : list N) :
  In raw (findall forward_slash_pattern text) ->
  exists pre post,
    text = pre ++ raw ++ post /\ ends_with_boundary pre
    /\ (raw = [] \/ exists t, raw = ch_slash :: t
                              /\ Forall (fun c => is_fs_char c = true) t)
    /\ right_bounded post
    /\ line_clean (raw ++ post) /\ ~ on_line (py ",") post.
Proof.
  intros H.
  apply (findall_sound _ _ _ forward_slash_pattern_plain) in H
    as (pre & w & s' & g & -> & HD & ->).
  rewrite forward_slash_pattern_framed in HD.
  apply den_framed in HD as (bnd & tok & -> & Hl & Hc & HG & Hr & Hn).
  change (has_group (framed forward_group)) with true. cbv iota.
  assert (Hpre : ends_with_boundary (pre ++ bnd)).
  { destruct Hl as [[-> Hi]|(c & -> & Hb)].
    - destruct pre; [left; reflexivity|discriminate Hi].
    - right. exists pre, c. auto. }
  exists (pre ++ bnd), s'. rewrite <- !app_assoc.
  apply den_forward_group in HG as [[-> ->]|(t & -> & F & ->)]; simpl default.
  - split; [reflexivity|]. split; [exact Hpre|]. split; [left; reflexivity|]. auto.
  - split; [reflexivity|]. split; [exact Hpre|].
    split; [right; exists t; auto|]. auto.
Qed.

(** X9.  Every raw PARTIAL_URL match stands in the text after the start of
    the text or a whitespace or quote character and before the end of the
    text or such a character; it starts with [./], [../] or [/] and goes on
    with word characters, dots and slashes; the rest of its line holds no
    [//], [**], [/*-] or [/*=], and no comma after the match. *)
Theorem X9_partial_url_match_context uni_alnum (text raw : list N) :
  In raw (findall (partial_url_pattern uni_alnum) text) ->
  exists pre post,
    text = pre ++ raw ++ post /\ ends_with_boundary pre
    /\ path_token uni_alnum raw /\ right_bounded post
    /\ line_clean (raw ++ post) /\ ~ on_line (py ",") post.
Proof. apply partial_url_raw_context. Qed.

Lemma X9_witness :
  exists pre post,
    import_text = pre ++ py "./utils/helper" ++ post /\ ends_with_boundary pre
    /\ path_token ascii_alnum (py "./utils/helper") /\ right_bounded post
    /\ line_clean (py "./utils/helper" ++ post) /\ ~ on_line (py ",") post.
Proof.
  apply (X9_partial_url_match_context ascii_alnum import_text (py "./utils/helper")).
  vm_compute. left. reflexivity.
Defined.

(** X10.  Every raw FORWARD_SLASH match is empty or a slash followed by
    characters other than whitespace, quotes and angle brackets; it stands
    between the same boundaries as a PARTIAL_URL match, on a line with the
    same restrictions. *)
Theorem X10_forward_slash_match_context (text raw : list N) :
  In raw (findall forward_slash_pattern text) ->
  exists pre post,
    text = pre ++ raw ++ post /\ ends_with_boundary pre
    /\ (raw = [] \/ exists t, raw = ch_slash :: t
                              /\ Forall (fun c => is_fs_char c = true) t)
    /\ right_bounded post
    /\ line_clean (raw ++ post) /\ ~ on_line (py ",") post.
Proof. apply forward_slash_raw_context. Qed.

Lemma X10_witness :
  exists pre post,
    py "path: /etc/passwd" = pre ++ py "/etc/passwd" ++ post
    /\ ends_with_boundary pre
    /\ (py "/etc/passwd" = []
        \/ exists t, py "/etc/passwd" = ch_slash :: t
                     /\ Forall (fun c => is_fs_char c = true) t)
    /\ right_bounded post
    /\ line_clean (py "/etc/passwd" ++ post) /\ ~ on_line (py ",") post.
Proof.
  apply (X10_forward_slash_match_context (py "path: /etc/passwd") (py "/etc/passwd")).
  vm_compute. left. reflexivity.
Defined.

(** ** Absolute paths are found by both path patterns *)

Lemma boundary_not_fs (c : N) : is_boundary c = true -> is_fs_char c = false.
Proof.
  unfold is_boundary, is_quote, is_fs_char. intros H. apply negb_false_iff.
  destruct (is_space c); [reflexivity|]. simpl in *.
  destruct (c =? ch_dquote); [reflexivity|]. simpl in *.
  rewrite H. reflexivity.
Qed.

Lemma right_bounded_stops_fs (post : list N) :
  right_bounded post -> stops is_fs_char post.
Proof.
  intros [->|(c & s0 & -> & Hc)]; [exact I|]. simpl. apply boundary_not_fs, Hc.
Qed.

Lemma forward_group_chars i tok s g g' :
  den forward_group i tok s g g' -> Forall (fun c => is_fs_char c = true) tok.
Proof.
  intros H. apply den_forward_group in H as [[-> _]|(t & -> & F & _)].
  - constructor.
  - constructor; [reflexivity|exact F].
Qed.

(** At the position of a bounded token that starts with a slash the pattern
    matches that token, or nothing at all. *)
Lemma forward_match_at_token i w s g (lead t post : list N) :
  den forward_slash_pattern i w s None g ->
  lead = [] \/ (exists c, lead = [c] /\ is_boundary c = true) ->
  w ++ s = lead ++ (ch_slash :: t) ++ post ->
  Forall (fun c => is_fs_char c = true) t -> right_bounded post ->
  w = [] \/ g = Some (ch_slash :: t).
Proof.
  intros HD Hlead E Ft Hpost.
  rewrite forward_slash_pattern_framed in HD.
  apply den_framed in HD as (bnd & tok' & -> & Hl & _ & HG & Hr & _).
  pose proof (forward_group_chars _ _ _ _ _ HG) as Ftok'.
  assert (Ftok : Forall (fun c => is_fs_char c = true) (ch_slash :: t))
    by (constructor; [reflexivity|exact Ft]).
  assert (Hcore : tok' ++ s = (ch_slash :: t) ++ post ->
                  g = Some (ch_slash :: t)).
  { intros E'.
    assert (tok' = ch_slash :: t).
    { apply (run_unique is_fs_char tok' (ch_slash :: t) s post);
        auto using right_bounded_stops_fs. }
    subst tok'. apply den_forward_group in HG as [[HG _]|(t' & _ & _ & ->)];
      [discriminate HG|reflexivity]. }
  rewrite <- app_assoc in E.
  destruct Hl as [[-> _]|(c' & -> & Hc')], Hlead as [->|(c & -> & Hc)].
  - right. apply Hcore, E.
  - apply den_forward_group in HG as [[-> _]|(t' & -> & _ & _)]; [left; reflexivity|].
    simpl in E. injection E as <- _. discriminate Hc.
  - simpl in E. injection E as -> _. discriminate Hc'.
  - simpl in E. injection E as _ E. right. apply Hcore, E.
Qed.

Lemma forward_match_short i w s g (gr rest : list N) (c : N) :
  den forward_slash_pattern i w s None g ->
  w ++ s = gr ++ c :: rest -> gr <> [] -> is_boundary c = true ->
  (length w <= length gr)%nat.
Proof.
  intros HD E Hgr Hc.
  rewrite forward_slash_pattern_framed in HD.
  apply den_framed in HD as (bnd & tok & -> & Hl & _ & HG & _).
  apply forward_group_chars in HG.
  destruct (Nat.le_gt_cases (length (bnd ++ tok)) (length gr)) as [Hle|Hgt];
    [exact Hle|exfalso].
  assert (Hb : (length bnd <= length gr)%nat).
  { destruct gr; [contradiction|].
    destruct Hl as [[-> _]|(c' & -> & _)]; simpl; lia. }
  assert (Hlook : ((bnd ++ tok) ++ s) !! length gr = Some c)
    by (rewrite E; apply list_lookup_middle; reflexivity).
  rewrite lookup_app_l in Hlook by exact Hgt.
  rewrite lookup_app_r in Hlook by exact Hb.
  apply (Forall_lookup_1 _ _ _ _ HG) in Hlook. cbv beta in Hlook.
  rewrite (boundary_not_fs c Hc) in Hlook. discriminate.
Qed.

Lemma forward_token_match i (lead t post : list N) :
  left_bounded i lead -> Forall (fun c => is_fs_char c = true) t ->
  right_bounded post -> line_clean ((ch_slash :: t) ++ post) ->
  ~ on_line (py ",") post ->
  den forward_slash_pattern i (lead ++ ch_slash :: t) post None
    (Some (ch_slash :: t)).
Proof.
  intros Hl Ft Hr Hc Hn. rewrite forward_slash_pattern_framed.
  apply den_framed. exists lead, (ch_slash :: t).
  split; [reflexivity|]. split; [exact Hl|]. split; [exact Hc|].
  split; [|split; assumption].
  apply den_forward_group. right. exists t. auto.
Qed.

(** The scan of the FORWARD_SLASH pattern reaches a bounded token that
    starts with a slash and returns it, possibly after an empty match at
    the same place. *)
Lemma findall_from_reaches_forward (lead t post : list N) :
  Forall (fun c => is_fs_char c = true) t -> right_bounded post ->
  line_clean ((ch_slash :: t) ++ post) -> ~ on_line (py ",") post ->
  forall fuel (gap : list N) p adv,
    left_bounded (p + length gap) lead ->
    (rounds (gap ++ lead ++ (ch_slash :: t) ++ post) adv <= fuel)%nat ->
    In (ch_slash :: t)
      (findall_from fuel forward_slash_pattern p
         (gap ++ lead ++ (ch_slash :: t) ++ post) adv).
Proof.
  intros Ft Hr Hl Hn.
  pose proof forward_slash_pattern_plain as Hwf.
  induction fuel as [|fuel IH]; intros gap p adv Hlead Hf.
  - unfold rounds in Hf. destruct adv; lia.
  - cbn [findall_from].
    pose proof (forward_token_match _ lead t post Hlead Ft Hr Hl Hn) as HD.
    destruct (search_complete _ Hwf gap p adv _ _ _ HD) as (b & e & g' & Hs & Hb).
    { intros _ _ E. destruct lead; discriminate E. }
    rewrite <- (app_assoc lead) in Hs. rewrite Hs.
    destruct (search_sound _ Hwf _ _ _ _ _ _ Hs)
      as (skip & w & s' & E & -> & -> & HD' & Hadv).
    symmetry in E.
    apply app_split_le in E as (gr & -> & E); [|lia].
    assert (Hlead' : lead = [] \/ (exists c, lead = [c] /\ is_boundary c = true)).
    { destruct Hlead as [[-> _]|H]; auto. }
    assert (Hcase : g' = Some (ch_slash :: t) /\ gr = []
                    \/ (length w <= length gr)%nat).
    { destruct gr as [|x gr].
      - destruct (forward_match_at_token _ _ _ _ lead t post HD' Hlead' E Ft Hr)
          as [->|Hg]; [right; simpl; lia|left; auto].
      - right. destruct Hlead' as [->|(c & -> & Hc)].
        + destruct Hlead as [[_ H0]|(c & H0 & _)]; [|discriminate H0].
          rewrite length_app in H0. simpl in H0. lia.
        + apply (forward_match_short _ _ _ _ (x :: gr)
                   (((ch_slash :: t)) ++ post) c HD' E); [discriminate|exact Hc]. }
    destruct Hcase as [[-> ->]|Hshort].
    + left. reflexivity.
    + right.
      apply app_split_le in E as (gr' & Eg & ->); [|exact Hshort].
      rewrite Eg, <- !app_assoc.
      replace (p + length skip + length w - p)%nat
        with (length (skip ++ w)) by (rewrite length_app; lia).
      rewrite (app_assoc skip w), drop_app_length.
      apply IH.
      * rewrite Eg, !length_app in Hlead.
        replace (p + length skip + length w + length gr')%nat
          with (p + (length skip + (length w + length gr')))%nat by lia.
        exact Hlead.
      * rewrite Eg, <- !app_assoc in Hf. unfold rounds in *.
        rewrite !length_app in Hf. rewrite !length_app.
        destruct (Nat.eqb_spec (p + length skip + length w) (p + length skip))
          as [E0|E0].
        -- assert (length w = O) by lia.
           destruct skip as [|y skip]; cbn [length] in *; [|lia].
           destruct adv; [|lia].
           destruct w; [|cbn [length] in *; lia]. exfalso. apply Hadv; reflexivity.
        -- destruct adv; lia.
Qed.

Lemma path_char_is_fs uni_alnum (c : N) :
  table_ok uni_alnum -> is_path_char uni_alnum c = true -> is_fs_char c = true.
Proof.
  intros Htable Hp. unfold is_fs_char. apply negb_true_iff.
  destruct (is_boundary c) eqn:Eb.
  - rewrite (boundary_not_path uni_alnum Htable c Eb) in Hp. discriminate.
  - unfold is_boundary, is_quote in Eb.
    apply orb_false_iff in Eb as [-> Eb]. apply orb_false_iff in Eb as [-> ->].
    simpl.
    destruct (N.eqb_spec c ch_lt) as [->|_]; [discriminate Hp|].
    destruct (N.eqb_spec c ch_gt) as [->|_]; [discriminate Hp|reflexivity].
Qed.

Lemma partial_slash_match_is_forward_match uni_alnum (text raw : list N) :
  table_ok uni_alnum ->
  In raw (findall (partial_url_pattern uni_alnum) text) ->
  startswith (py "/") raw = true ->
  In raw (findall forward_slash_pattern text).
Proof.
  intros Htable Hin Hs.
  apply partial_url_raw_context in Hin as (pre & post & -> & Hpre & Ht & Hr & Hc & Hn).
  apply path_token_chars in Ht.
  apply startswith_inv in Hs as [t ->].
  change (py "/" ++ t) with (ch_slash :: t) in *.
  apply Forall_cons in Ht as [_ Ft].
  assert (Ffs : Forall (fun c => is_fs_char c = true) t).
  { eapply Forall_impl; [exact Ft|]. intros c Hc'. cbv beta in Hc'.
    exact (path_char_is_fs uni_alnum c Htable Hc'). }
  unfold findall. destruct Hpre as [->|(pre' & c & -> & Hb)].
  - apply (findall_from_reaches_forward [] t post Ffs Hr Hc Hn _ [] O false).
    + left. auto.
    + unfold rounds. simpl. lia.
  - rewrite <- app_assoc.
    apply (findall_from_reaches_forward [c] t post Ffs Hr Hc Hn _ pre' O false).
    + right. exists c. auto.
    + unfold rounds. lia.
Qed.

(** X11.  Provided no whitespace or quote character counts as alphanumeric,
    every raw PARTIAL_URL match that starts with a slash is also a raw
    FORWARD_SLASH match: an absolute path is reported under both flags, with
    the same normalised string. *)
Theorem X11_absolute_path_reported_twice uni_alnum
    (text repo file_path raw : list N) :
  table_ok uni_alnum ->
  In raw (findall (partial_url_pattern uni_alnum) text) ->
  startswith (py "/") raw = true ->
  In raw (findall forward_slash_pattern text)
  /\ (exists t, In t (extract_urls uni_alnum text repo file_path)
                /\ m_flag t = PARTIAL_URL
                /\ m_url t = clean_url (rstrip (py ",") raw))
  /\ (exists t, In t (extract_urls uni_alnum text repo file_path)
                /\ m_flag t = FORWARD_SLASH
                /\ m_url t = clean_url (rstrip (py ",") raw)).
Proof.
  intros Htable Hin Hs.
  pose proof (partial_slash_match_is_forward_match _ _ _ Htable Hin Hs) as Hf.
  destruct (extract_urls_In uni_alnum text repo file_path raw) as (_ & Hp & Hfw).
  split; [exact Hf|]. split; [apply Hp, Hin|apply Hfw, Hf].
Qed.

Lemma X11_witness :
  In (py "/etc/passwd") (findall forward_slash_pattern (py "path: /etc/passwd"))
  /\ (exists t, In t (extract_urls ascii_alnum (py "path: /etc/passwd") [] [])
                /\ m_flag t = PARTIAL_URL
                /\ m_url t = clean_url (rstrip (py ",") (py "/etc/passwd")))
  /\ (exists t, In t (extract_urls ascii_alnum (py "path: /etc/passwd") [] [])
                /\ m_flag t = FORWARD_SLASH
                /\ m_url t = clean_url (rstrip (py ",") (py "/etc/passwd"))).
Proof.
  apply (X11_absolute_path_reported_twice ascii_alnum (py "path: /etc/passwd")
           [] [] (py "/etc/passwd")).
  - intros c _. reflexivity.
  - vm_compute. left. reflexivity.
  - reflexivity.
Defined.

(** X12.  The FORWARD_SLASH pattern finds every token that starts with a
    slash, goes on with characters other than whitespace, quotes and angle
    brackets, and stands between the boundaries on a line without [//],
    [**], [/*-] or [/*=] from the token on and without a comma after it. *)
Theorem X12_forward_slash_finds_bounded_tokens (pre t post : list N) :
  ends_with_boundary pre ->
  Forall (fun c => is_fs_char c = true) t ->
  right_bounded post ->
  line_clean ((ch_slash :: t) ++ post) ->
  ~ on_line (py ",") post ->
  In (ch_slash :: t)
    (findall forward_slash_pattern (pre ++ (ch_slash :: t) ++ post)).
Proof.
  intros Hpre Ft Hr Hc Hn. unfold findall.
  destruct Hpre as [->|(pre' & c & -> & Hb)].
  - apply (findall_from_reaches_forward [] t post Ft Hr Hc Hn _ [] O false).
    + left. auto.
    + unfold rounds. simpl. lia.
  - rewrite <- app_assoc.
    apply (findall_from_reaches_forward [c] t post Ft Hr Hc Hn _ pre' O false).
    + right. exists c. auto.
    + unfold rounds. lia.
Qed.

Lemma X12_witness :
  In (ch_slash :: py "etc/passwd")
    (findall forward_slash_pattern
       (py "path: " ++ (ch_slash :: py "etc/passwd") ++ [])).
Proof.
  apply (X12_forward_slash_finds_bounded_tokens (py "path: ") (py "etc/passwd") []).
  - right. exists (py "path:"), ch_space. split; reflexivity.
  - repeat constructor.
  - left. reflexivity.
  - repeat split; apply not_on_line; reflexivity.
  - apply not_on_line. reflexivity.
Defined.

(** ** The lines of the reports *)

Lemma report_lines_line (body rest : list N) :
  ~ In ch_nl body ->
  report_lines (body ++ ch_nl :: rest) = body :: report_lines rest.
Proof.
  induction body as [|c body IH]; intros Hn.
  - reflexivity.
  - cbn [app report_lines].
    destruct (N.eqb_spec c ch_nl) as [->|_]; [exfalso; apply Hn; left; reflexivity|].
    rewrite IH; [reflexivity|]. intros H. apply Hn. right. exact H.
Qed.

Lemma report_lines_blank (rest : list N) :
  report_lines (ch_nl :: rest) = [] :: report_lines rest.
Proof. reflexivity. Qed.

Lemma report_lines_url_lines (fl : flag) (l : list (list N)) (rest : list N) :
  Forall (fun u => ~ In ch_nl u) l ->
  report_lines (concat (map (url_line fl) l) ++ rest)
  = map (line_text fl) l ++ report_lines rest.
Proof.
  induction 1 as [|u l Hu _ IH]; [reflexivity|].
  cbn [map concat app]. unfold url_line at 1.
  rewrite <- !app_assoc.
  replace (flag_name fl ++ py ": " ++ u ++ [ch_nl] ++ concat (map (url_line fl) l) ++ rest)
    with (line_text fl u ++ ch_nl :: (concat (map (url_line fl) l) ++ rest))
    by (unfold line_text; rewrite <- !app_assoc; reflexivity).
  rewrite report_lines_line, IH; [reflexivity|].
  unfold line_text. intros H.
  apply in_app_or in H as [H|H]; [destruct fl; simpl in H; intuition discriminate|].
  apply in_app_or in H as [H|H]; [simpl in H; intuition discriminate|exact (Hu H)].
Qed.

(** No extracted string holds a line feed. *)
Lemma extract_urls_no_newline uni_alnum (text repo file_path : list N)
    (t : match_tuple) :
  In t (extract_urls uni_alnum text repo file_path) -> ~ In ch_nl (m_url t).
Proof.
  intros Hin.
  assert (HF : forall (Q : N -> bool) (u : list N),
            Q ch_nl = false -> Forall (fun c => Q c = true) u -> ~ In ch_nl u).
  { intros Q u Hq F H. rewrite List.Forall_forall in F.
    specialize (F _ H). congruence. }
  apply In_extract_urls in Hin.
  destruct (m_flag t); destruct Hin as (raw & Hraw & ->).
  - apply (findall_sound _ _ _ url_pattern_plain) in Hraw
      as (pre & w & s' & g & _ & HD & ->).
    apply den_url_pattern in HD as (scheme & rest & -> & Hs & F & _).
    apply (HF url_char); [reflexivity|].
    apply rstrip_Forall, Forall_app. split; [|exact F].
    destruct Hs as [-> | ->]; repeat constructor.
  - apply (HF (is_path_char uni_alnum)); [reflexivity|].
    apply clean_url_Forall; [reflexivity|].
    apply rstrip_Forall, (partial_url_raw_chars _ _ _ Hraw).
  - apply (HF is_fs_char); [reflexivity|].
    apply clean_url_Forall; [reflexivity|].
    apply rstrip_Forall, (forward_slash_raw_chars _ _ Hraw).
Qed.

Lemma scan_no_newline uni_alnum os_walk is_text_file read_file
    (directory forbidden_characters : list N) (fl : flag) :
  Forall (fun u => ~ In ch_nl u)
    (elements (rs_get (search_directory_for_urls uni_alnum os_walk is_text_file
                         read_file directory forbidden_characters) fl)).
Proof.
  apply List.Forall_forall. intros u Hu.
  apply list_elem_of_In, elem_of_elements, search_directory_spec in Hu
    as (root & files & file_name & _ & _ & (_ & content & _ & t & Ht & _ & <-) & _).
  exact (extract_urls_no_newline _ _ _ _ _ Ht).
Qed.

(** X13.  Read line by line, the report that [process_dir] writes in
    overwrite mode is the list of the lines [<flag>: <string>], one for each
    string of the FULL_URL set, then of the PARTIAL_URL set, then of the
    FORWARD_SLASH set of the scan, and nothing else. *)
Theorem X13_process_dir_lines uni_alnum
    (os_walk : list N -> list (list N * list (list N)))
    (is_text_file : list N -> bool) (read_file : list N -> option (list N))
    (dir_path old : list N) :
  report_lines (process_dir uni_alnum os_walk is_text_file read_file
                  dir_path old false)
  = map (line_text FULL_URL)
      (elements (rs_full (search_directory_for_urls uni_alnum os_walk
                            is_text_file read_file dir_path
                            dir_forbidden_characters)))
    ++ map (line_text PARTIAL_URL)
         (elements (rs_partial (search_directory_for_urls uni_alnum os_walk
                                  is_text_file read_file dir_path
                                  dir_forbidden_characters)))
    ++ map (line_text FORWARD_SLASH)
         (elements (rs_forward (search_directory_for_urls uni_alnum os_walk
                                  is_text_file read_file dir_path
                                  dir_forbidden_characters))).
Proof.
  unfold process_dir. rewrite dir_report_layout. unfold flag_lines, open_output.
  cbn [app].
  rewrite report_lines_url_lines
    by apply (scan_no_newline _ _ _ _ _ _ FULL_URL).
  rewrite report_lines_url_lines
    by apply (scan_no_newline _ _ _ _ _ _ PARTIAL_URL).
  rewrite <- (app_nil_r (concat _)).
  rewrite report_lines_url_lines
    by apply (scan_no_newline _ _ _ _ _ _ FORWARD_SLASH).
  cbn [report_lines]. rewrite app_nil_r. reflexivity.
Qed.

(** X14.  Read line by line, the report that [process_repo] writes in
    overwrite mode has the heading [FULL_URLS:] and the lines of the
    FULL_URL set, an empty line, the heading [PARTIAL_URLS:] and the lines
    of the PARTIAL_URL set, an empty line, the heading [FORWARD_SLASHES:]
    and the lines of the FORWARD_SLASH set; the headings are there even when
    the scan found nothing. *)
Theorem X14_process_repo_lines uni_alnum
    (os_walk : list N -> list (list N * list (list N)))
    (is_text_file : list N -> bool) (read_file : list N -> option (list N))
    (old : list N) :
  report_lines (process_repo uni_alnum os_walk is_text_file read_file old false)
  = [py "FULL_URLS:"]
    ++ map (line_text FULL_URL)
         (elements (rs_full (search_directory_for_urls uni_alnum os_walk
                               is_text_file read_file (py "cloned_repo")
                               repo_forbidden_characters)))
    ++ [[]; py "PARTIAL_URLS:"]
    ++ map (line_text PARTIAL_URL)
         (elements (rs_partial (search_directory_for_urls uni_alnum os_walk
                                  is_text_file read_file (py "cloned_repo")
                                  repo_forbidden_characters)))
    ++ [[]; py "FORWARD_SLASHES:"]
    ++ map (line_text FORWARD_SLASH)
         (elements (rs_forward (search_directory_for_urls uni_alnum os_walk
                                  is_text_file read_file (py "cloned_repo")
                                  repo_forbidden_characters))).
Proof.
  unfold process_repo. cbv zeta. rewrite repo_report_layout.
  unfold flag_lines, open_output. cbn [app].
  rewrite <- !app_assoc. cbn [app].
  rewrite (report_lines_line (py "FULL_URLS:")) by (simpl; intuition discriminate).
  rewrite report_lines_url_lines
    by apply (scan_no_newline _ _ _ _ _ _ FULL_URL).
  rewrite report_lines_blank.
  rewrite (report_lines_line (py "PARTIAL_URLS:")) by (simpl; intuition discriminate).
  rewrite report_lines_url_lines
    by apply (scan_no_newline _ _ _ _ _ _ PARTIAL_URL).
  rewrite report_lines_blank.
  rewrite (report_lines_line (py "FORWARD_SLASHES:")) by (simpl; intuition discriminate).
  rewrite <- (app_nil_r (concat _)).
  rewrite report_lines_url_lines
    by apply (scan_no_newline _ _ _ _ _ _ FORWARD_SLASH).
  cbn [report_lines]. rewrite app_nil_r. reflexivity.
Qed.

(** ** The requirements *)

Section CheckFold.

Variable catches : exception -> bool.
Variable call : list N -> result unit.
Variable check : list N -> list (list N) -> result bool * list (list N).

Hypothesis check_spec : forall item out,
  check item out
  = match call item with
    | Returns _ => (Returns true, out ++ [requirement_line call item])
    | Raises e =>
        if catches e
        then (Returns false, out ++ [requirement_line call item])
        else (Raises e, out)
    end.

(** A loop whose probes all complete runs to its end. *)
Lemma check_fold_completes (items : list (list N)) :
  forallb (probe_completes catches call) items = true ->
  forall ok out,
    fold_left (check_step check) items (Returns ok, out)
    = (Returns (ok && forallb (call_returns call) items),
       out ++ map (requirement_line call) items).
Proof.
  induction items as [|item items IH]; intros Hc ok out.
  - simpl. rewrite andb_true_r, app_nil_r. reflexivity.
  - cbn [forallb] in Hc. apply andb_true_iff in Hc as [Hi Hc].
    cbn [fold_left map forallb]. unfold check_step at 2. cbn [fst snd].
    rewrite check_spec. unfold probe_completes in Hi.
    unfold call_returns at 1.
    destruct (call item) as [[]|e].
    + rewrite (IH Hc), <- app_assoc. cbn [negb].
      rewrite andb_true_l. reflexivity.
    + rewrite Hi, (IH Hc), <- app_assoc. cbn [negb].
      rewrite andb_false_l, andb_false_r. reflexivity.
Qed.

(** Once an exception is on its way no round is run. *)
Lemma check_fold_raised (items : list (list N)) (e : exception)
    (out : list (list N)) :
  fold_left (check_step check) items (Raises e, out) = (Raises e, out).
Proof. induction items as [|item items IH]; [reflexivity|exact IH]. Qed.

(** The first probe that lets an exception through ends the loop. *)
Lemma check_fold_escapes (before after : list (list N)) (item : list N)
    (e : exception) :
  forallb (probe_completes catches call) before = true ->
  call item = Raises e -> catches e = false ->
  forall ok out,
    fold_left (check_step check) (before ++ item :: after) (Returns ok, out)
    = (Raises e, out ++ map (requirement_line call) before).
Proof.
  intros Hb Hi He ok out.
  rewrite fold_left_app, (check_fold_completes before Hb).
  cbn [fold_left]. unfold check_step at 2. cbn [fst snd].
  rewrite check_spec, Hi, He. apply check_fold_raised.
Qed.

End CheckFold.

Lemma check_program_installed_spec subprocess_run (program : list N)
    (out : list (list N)) :
  check_program_installed subprocess_run program out
  = match subprocess_run program with
    | Returns _ => (Returns true, out ++ [requirement_line subprocess_run program])
    | Raises e =>
        if program_probe_catches e
        then (Returns false, out ++ [requirement_line subprocess_run program])
        else (Raises e, out)
    end.
Proof.
  unfold check_program_installed, requirement_line, call_returns.
  destruct (subprocess_run program) as [[]|[]]; reflexivity.
Qed.

Lemma check_python_package_installed_spec import_module (package : list N)
    (out : list (list N)) :
  check_python_package_installed import_module package out
  = match import_module package with
    | Returns _ => (Returns true, out ++ [requirement_line import_module package])
    | Raises e =>
        if package_probe_catches e
        then (Returns false, out ++ [requirement_line import_module package])
        else (Raises e, out)
    end.
Proof.
  unfold check_python_package_installed, requirement_line, call_returns.
  destruct (import_module package) as [[]|[]]; reflexivity.
Qed.

(** X15.  As long as every probe returns or raises an exception of a class
    it catches, [check_requirements] runs all seven probes, whatever the
    earlier ones gave: it prints one line for [git] and one for each of the
    six packages, each line saying what its probe found, and it returns
    [True] exactly when all seven calls returned.  Any other exception ends
    it at once, with no return value: one that leaves the probe of [git]
    before any line is printed and before any package is probed, one that
    leaves the probe of a package after the lines of [git] and of the
    packages before it. *)
Theorem X15_check_requirements_checks_everything
    (subprocess_run import_module : list N -> result unit)
    (out : list (list N)) :
  (forallb (probe_completes program_probe_catches subprocess_run)
     required_programs = true ->
   forallb (probe_completes package_probe_catches import_module)
     required_packages = true ->
   check_requirements subprocess_run import_module out
   = (Returns (forallb (call_returns subprocess_run) required_programs
               && forallb (call_returns import_module) required_packages),
      out ++ map (requirement_line subprocess_run) required_programs
          ++ map (requirement_line import_module) required_packages))
  /\ (forall e,
        subprocess_run (py "git") = Raises e ->
        program_probe_catches e = false ->
        check_requirements subprocess_run import_module out = (Raises e, out))
  /\ (forall before package after e,
        required_packages = before ++ package :: after ->
        forallb (probe_completes program_probe_catches subprocess_run)
          required_programs = true ->
        forallb (probe_completes package_probe_catches import_module)
          before = true ->
        import_module package = Raises e ->
        package_probe_catches e = false ->
        check_requirements subprocess_run import_module out
        = (Raises e,
           out ++ map (requirement_line subprocess_run) required_programs
               ++ map (requirement_line import_module) before)).
Proof.
  split; [|split].
  - intros Hp Hk. unfold check_requirements.
    rewrite (check_fold_completes program_probe_catches subprocess_run _
               (check_program_installed_spec subprocess_run) _ Hp).
    rewrite (check_fold_completes package_probe_catches import_module _
               (check_python_package_installed_spec import_module) _ Hk).
    rewrite <- app_assoc, andb_true_l. reflexivity.
  - intros e Hg He. unfold check_requirements.
    change required_programs with ([] ++ py "git" :: []).
    rewrite (check_fold_escapes program_probe_catches subprocess_run _
               (check_program_installed_spec subprocess_run) [] [] (py "git") e
               eq_refl Hg He).
    cbn [map]. rewrite app_nil_r. apply check_fold_raised.
  - intros before package after e Hs Hp Hb Hi He. unfold check_requirements.
    rewrite (check_fold_completes program_probe_catches subprocess_run _
               (check_program_installed_spec subprocess_run) _ Hp).
    rewrite Hs.
    rewrite (check_fold_escapes package_probe_catches import_module _
               (check_python_package_installed_spec import_module)
               before after package e Hb Hi He).
    rewrite <- app_assoc. reflexivity.
Qed.

(** With [git] found and [shutil] not importable the seven lines are
    printed and the result is [False]. *)
Lemma X15_witness :
  check_requirements (fun _ => Returns tt)
    (fun p => if startswith (py "sh") p then Raises ImportError else Returns tt)
    []
  = (Returns false,
     [py "git is installed."; py "re is installed."; py "os is installed.";
      py "subprocess is installed."; py "Error: shutil is not installed.";
      py "sys is installed."; py "argparse is installed."]).
Proof.
  apply (proj1 (X15_check_requirements_checks_everything (fun _ => Returns tt)
                  (fun p => if startswith (py "sh") p then Raises ImportError
                            else Returns tt) []));
    reflexivity.
Defined.

(** ** The entry point *)

Section MainProperties.

Variable uni_alnum : N -> bool.
Variable cloned_fs : nat -> list N -> fs_view.

Lemma process_repo_overwrites os_walk is_text_file read_file (old : list N) :
  process_repo uni_alnum os_walk is_text_file read_file old false
  = process_repo uni_alnum os_walk is_text_file read_file [] false.
Proof. reflexivity. Qed.

Lemma process_repo_appends os_walk is_text_file read_file (old : list N) :
  process_repo uni_alnum os_walk is_text_file read_file old true
  = old ++ process_repo uni_alnum os_walk is_text_file read_file [] false.
Proof.
  unfold process_repo. cbv zeta. rewrite !repo_report_layout. reflexivity.
Qed.

Lemma process_repo_urls_overwrite (urls : list (list N)) (last_url : list N)
    (i : nat) (old : list N) :
  process_repo_urls uni_alnum cloned_fs i (urls ++ [last_url]) old false
  = run_process_repo uni_alnum cloned_fs (i + length urls) (strip last_url)
      [] false.
Proof.
  revert i old. induction urls as [|u urls IH]; intros i old; simpl.
  - rewrite Nat.add_0_r. apply process_repo_overwrites.
  - rewrite IH. f_equal. lia.
Qed.

Lemma process_repo_urls_append (urls : list (list N)) (i : nat) (old : list N) :
  process_repo_urls uni_alnum cloned_fs i urls old true
  = old ++ concat (imap (fun j u =>
                           run_process_repo uni_alnum cloned_fs (i + j)
                             (strip u) [] false) urls).
Proof.
  revert i old. induction urls as [|u urls IH]; intros i old; simpl.
  - symmetry. apply app_nil_r.
  - rewrite IH. unfold run_process_repo at 1.
    rewrite process_repo_appends, <- app_assoc, Nat.add_0_r.
    f_equal. f_equal. f_equal. apply imap_ext. intros j x _. simpl.
    f_equal. lia.
Qed.

End MainProperties.



(** X17.  With a file of repository URLs and without [--append], each
    repository overwrites the report of the one before: when [main] ends,
    the output file holds the report of the last URL of the file and nothing
    of the others nor of its old content. *)
Theorem X17_batch_keeps_last_report_only uni_alnum
    (subprocess_run import_module : list N -> result unit)
    (parse_args : list (list N) -> result cli_args)
    (isdir isfile : list N -> bool)
    (readlines : list N -> list (list N)) (local_fs : fs_view)
    (cloned_fs : nat -> list N -> fs_view) (argv : list (list N))
    (args : cli_args) (old file last_url : list N) (urls : list (list N)) :
  fst (check_requirements subprocess_run import_module []) = Returns true ->
  parse_args argv = Returns args ->
  given (arg_dir args) = None ->
  given (arg_repo args) = None ->
  given (arg_file args) = Some file ->
  isfile file = true ->
  readlines file = urls ++ [last_url] ->
  arg_append args = false ->
  main uni_alnum subprocess_run import_module parse_args isdir isfile
    readlines local_fs cloned_fs argv old
  = Outcome (Returns tt)
      (run_process_repo uni_alnum cloned_fs (length urls)
         (strip last_url) [] false).
Proof.
  intros Hreq Hparse Hdir Hrepo Hfile Hisfile Hlines Happend.
  unfold main, dispatch.
  rewrite Hreq, Hparse, Hdir, Hrepo, Hfile, Hisfile, Hlines, Happend.
  cbn [negb]. cbv iota. f_equal. apply process_repo_urls_overwrite.
Qed.

Lemma X17_witness :
  main ascii_alnum (fun _ => Returns tt) (fun _ => Returns tt)
    (fun _ => Returns (CliArgs None None (Some (py "list.txt")) (py "out.txt")
                         false))
    (fun _ => false)
    (fun _ => true) (fun _ => [py "u1" ++ [ch_nl]; py "u2" ++ [ch_nl]])
    (FsView (fun _ => []) (fun _ => true) (fun _ => None))
    (fun i url => FsView (fun _ => [(url, [py "f"])]) (fun _ => true)
                    (fun _ => Some (py "see https://" ++ url ++ py "/x")))
    [py "--file"; py "list.txt"; py "--output"; py "out.txt"]
    (py "old report")
  = Outcome (Returns tt)
      (run_process_repo ascii_alnum
         (fun i url => FsView (fun _ => [(url, [py "f"])]) (fun _ => true)
                         (fun _ => Some (py "see https://" ++ url ++ py "/x")))
         1 (strip (py "u2" ++ [ch_nl])) [] false).
Proof.
  apply (X17_batch_keeps_last_report_only ascii_alnum (fun _ => Returns tt)
           (fun _ => Returns tt)
           (fun _ => Returns (CliArgs None None (Some (py "list.txt"))
                                (py "out.txt") false))
           (fun _ => false) (fun _ => true)
           (fun _ => [py "u1" ++ [ch_nl]; py "u2" ++ [ch_nl]])
           (FsView (fun _ => []) (fun _ => true) (fun _ => None))
           (fun i url => FsView (fun _ => [(url, [py "f"])]) (fun _ => true)
                           (fun _ => Some (py "see https://" ++ url ++ py "/x")))
           [py "--file"; py "list.txt"; py "--output"; py "out.txt"]
           (CliArgs None None (Some (py "list.txt")) (py "out.txt") false)
           (py "old report") (py "list.txt") (py "u2" ++ [ch_nl])
           [py "u1" ++ [ch_nl]]); reflexivity.
Defined.

(** X18.  With [--append] the reports of the repositories of the file are
    written one after the other behind the old content, each as it would be
    written to an empty file. *)
Theorem X18_batch_append_concatenates uni_alnum
    (cloned_fs : nat -> list N -> fs_view) (urls : list (list N))
    (old : list N) :
  process_repo_urls uni_alnum cloned_fs 0 urls old true
  = old ++ concat (imap (fun j u =>
                           run_process_repo uni_alnum cloned_fs j (strip u)
                             [] false) urls).
Proof. apply (process_repo_urls_append uni_alnum cloned_fs urls 0 old). Qed.

Lemma scan_nothing uni_alnum os_walk is_text_file read_file
    (directory forbidden_characters : list N) :
  (forall root files file_name,
     In (root, files) (os_walk directory) -> In file_name files ->
     is_text_file (path_join root file_name) = false) ->
  search_directory_for_urls uni_alnum os_walk is_text_file read_file
    directory forbidden_characters
  = all_urls_empty.
Proof.
  intros H. apply result_set_ext. intros fl u.
  rewrite search_directory_spec. split.
  - intros (root & files & file_name & He & Hf & (Ht & _) & _).
    rewrite (H _ _ _ He Hf) in Ht. discriminate.
  - intros Hu. destruct fl; simpl in Hu; apply elem_of_empty in Hu; contradiction.
Qed.

(** X19.  When the clone directory holds no file that passes the text probe
    (a failed clone leaves no file at all), [process_repo] still writes its
    three headings: in overwrite mode the old content of the output file is
    replaced by the headings alone. *)
Theorem X19_empty_clone_writes_headings uni_alnum
    (os_walk : list N -> list (list N * list (list N)))
    (is_text_file : list N -> bool) (read_file : list N -> option (list N))
    (old : list N) (append : bool) :
  (forall root files file_name,
     In (root, files) (os_walk (py "cloned_repo")) -> In file_name files ->
     is_text_file (path_join root file_name) = false) ->
  process_repo uni_alnum os_walk is_text_file read_file old append
  = open_output old append ++ empty_repo_report.
Proof.
  intros H. unfold process_repo. cbv zeta.
  rewrite (scan_nothing _ _ _ _ _ _ H), repo_report_layout.
  unfold flag_lines. cbn [rs_get all_urls_empty rs_full rs_partial rs_forward].
  rewrite elements_empty. unfold empty_repo_report. cbn [map concat].
  rewrite !app_nil_l, <- !app_assoc. reflexivity.
Qed.

Lemma X19_witness :
  process_repo ascii_alnum (fun _ => []) (fun _ => true) (fun _ => None)
    (py "old report") false
  = open_output (py "old report") false ++ empty_repo_report.
Proof.
  apply (X19_empty_clone_writes_headings ascii_alnum (fun _ => [])
           (fun _ => true) (fun _ => None) (py "old report") false).
  intros root files file_name [].
Defined.

(** ** The tuples of a file, in order *)

Lemma imap_tag_maps (fl : flag) (repo file_path : list N)
    (found : list (list N)) (k : nat) :
  let l := imap (fun i url =>
                   MatchTuple (rstrip (py ",") url) fl repo file_path (S (k + i)))
             found in
  map m_url l = map (rstrip (py ",")) found
  /\ map m_flag l = repeat fl (length found)
  /\ map m_index l = seq (S k) (length found)
  /\ Forall (fun t => m_repo t = repo /\ m_file_path t = file_path) l.
Proof.
  revert k. induction found as [|url found IH]; intros k; cbn zeta.
  - repeat split. constructor.
  - cbn [imap map length repeat seq].
    rewrite (imap_ext _ (fun i url0 =>
               MatchTuple (rstrip (py ",") url0) fl repo file_path (S (S k + i))))
      by (intros i x _; simpl; do 2 f_equal; lia).
    destruct (IH (S k)) as (Hu & Hf & Hi & Hr).
    cbn [m_url m_flag m_index]. rewrite Hu, Hf, Hi, Nat.add_0_r.
    repeat split. constructor; [split; reflexivity|exact Hr].
Qed.

Lemma tag_maps (fl : flag) (repo file_path : list N) (found : list (list N)) :
  map m_url (tag fl repo file_path found) = map (rstrip (py ",")) found
  /\ map m_flag (tag fl repo file_path found) = repeat fl (length found)
  /\ map m_index (tag fl repo file_path found) = seq 1 (length found)
  /\ Forall (fun t => m_repo t = repo /\ m_file_path t = file_path)
       (tag fl repo file_path found).
Proof. exact (imap_tag_maps fl repo file_path found 0). Qed.

Lemma clean_urls_maps (l : list match_tuple) :
  map m_url (clean_urls l) = map clean_url (map m_url l)
  /\ map m_flag (clean_urls l) = map m_flag l
  /\ map m_index (clean_urls l) = map m_index l
  /\ forall repo file_path,
       Forall (fun t => m_repo t = repo /\ m_file_path t = file_path) l ->
       Forall (fun t => m_repo t = repo /\ m_file_path t = file_path)
         (clean_urls l).
Proof.
  unfold clean_urls. rewrite !map_map. repeat split.
  intros repo file_path H. apply List.Forall_map. exact H.
Qed.

(** X20.  [extract_urls] returns the FULL_URL tuples first, then the
    PARTIAL_URL tuples, then the FORWARD_SLASH tuples, each group in the
    order of the matches and numbered from 1; the strings are the raw
    matches without trailing commas, normalised for the two path flags, and
    every tuple carries the repository and the path it was called with. *)
Theorem X20_extract_urls_layout uni_alnum (text repo file_path : list N) :
  map m_url (extract_urls uni_alnum text repo file_path)
  = map (rstrip (py ",")) (findall url_pattern text)
    ++ map clean_url
         (map (rstrip (py ",")) (findall (partial_url_pattern uni_alnum) text))
    ++ map clean_url
         (map (rstrip (py ",")) (findall forward_slash_pattern text))
  /\ map m_flag (extract_urls uni_alnum text repo file_path)
     = repeat FULL_URL (length (findall url_pattern text))
       ++ repeat PARTIAL_URL
            (length (findall (partial_url_pattern uni_alnum) text))
       ++ repeat FORWARD_SLASH (length (findall forward_slash_pattern text))
  /\ map m_index (extract_urls uni_alnum text repo file_path)
     = seq 1 (length (findall url_pattern text))
       ++ seq 1 (length (findall (partial_url_pattern uni_alnum) text))
       ++ seq 1 (length (findall forward_slash_pattern text))
  /\ Forall (fun t => m_repo t = repo /\ m_file_path t = file_path)
       (extract_urls uni_alnum text repo file_path).
Proof.
  unfold extract_urls, full_urls, partial_urls, forward_slash_strings.
  destruct (tag_maps FULL_URL repo file_path (findall url_pattern text))
    as (U1 & F1 & I1 & R1).
  destruct (tag_maps PARTIAL_URL repo file_path
              (findall (partial_url_pattern uni_alnum) text))
    as (U2 & F2 & I2 & R2).
  destruct (tag_maps FORWARD_SLASH repo file_path
              (findall forward_slash_pattern text))
    as (U3 & F3 & I3 & R3).
  destruct (clean_urls_maps
              (tag PARTIAL_URL repo file_path
                 (findall (partial_url_pattern uni_alnum) text)))
    as (CU2 & CF2 & CI2 & CR2).
  destruct (clean_urls_maps
              (tag FORWARD_SLASH repo file_path
                 (findall forward_slash_pattern text)))
    as (CU3 & CF3 & CI3 & CR3).
  rewrite !map_app.
  rewrite U1, F1, I1, CU2, CF2, CI2, CU3, CF3, CI3, U2, F2, I2, U3, F3, I3.
  repeat split.
  apply Forall_app. split; [exact R1|].
  apply Forall_app. split; [apply CR2, R2|apply CR3, R3].
Qed.

(** X21.  [clean_urls] is idempotent: cleaning a cleaned list of tuples
    changes nothing, whatever the strings were. *)
Theorem X21_clean_urls_idempotent (urls_to_clean : list match_tuple) :
  clean_urls (clean_urls urls_to_clean) = clean_urls urls_to_clean.
Proof.
  unfold clean_urls. rewrite map_map. apply map_ext. intros t. simpl.
  rewrite clean_url_idempotent. reflexivity.
Qed.
